(** * Viral or Fail: score extraction, round loop, trend fallback, rubrics

    A shallow embedding of the Python sources

    - [viral_or_fail.py]: [extract_scores], [build_scoring_rubric] and the
      round loop of [run_game];
    - [tools/trends_tool.py]: [fetch_gaming_trends], [_load_sample_trends];
    - [config/platform_rules.py]: [PLATFORMS], [PLATFORM_RULES];

    together with the small part of the Python runtime they rest on:
    [str] methods, [float], [round], the [re] module restricted to the
    operators that occur in the patterns, and dictionaries living in a store.

    Text is a sequence of code points below U+0100 (type [ascii], read as
    Latin-1).  On that range the Unicode-aware classes of [re] are exactly
    the ones defined below. *)

From Stdlib Require Import Strings.String Strings.Ascii Strings.Byte.
From Stdlib Require Import ZArith List QArith Qabs Lia DecimalString DecimalZ.
From stdpp Require Import gmap strings list.

(** ** Strings *)

Definition str := list ascii.

Inductive lit := LNil | LCons (a : ascii) (s : lit).

Fixpoint lit_of_bytes (b : list Byte.byte) : lit :=
  match b with
  | [] => LNil
  | x :: r => LCons (ascii_of_byte x) (lit_of_bytes r)
  end.

Fixpoint bytes_of_lit (l : lit) : list Byte.byte :=
  match l with
  | LNil => []
  | LCons a r => byte_of_ascii a :: bytes_of_lit r
  end.

Declare Scope str_scope.
Delimit Scope str_scope with str.
Bind Scope str_scope with str.
#[warning="-via-type-remapping,-via-type-mismatch"]
String Notation str lit_of_bytes bytes_of_lit
  (via lit mapping [[nil] => LNil, [cons] => LCons]) : str_scope.

Local Open Scope Z_scope.
Local Open Scope str_scope.

(** The line feed, written ["\n"] in the sources. *)
Definition LF : ascii := ascii_of_nat 10.
Definition nl : str := [LF].

(** ** Exceptions and results *)

Inductive exn :=
| OverflowError
| ValueError
| KeyError (key : str)
| Exception (msg : str).

Inductive Result (A : Type) :=
| Ok (a : A)
| Raise (e : exn).
Arguments Ok {A} a.
Arguments Raise {A} e.

(** ** Characters: [ord], the classes [\d] and [\s], [str.lower] *)

Definition ord (c : ascii) : Z := Z.of_N (N_of_ascii c).
Definition chr (n : Z) : ascii := ascii_of_N (Z.to_N n).

(** [\d]: the decimal digits (category Nd); below U+0100 only 0-9. *)
Definition is_digit (c : ascii) : bool :=
  (48 <=? ord c) && (ord c <=? 57).

(** [\s]: Unicode white space; below U+0100 these are TAB..CR, FS..US,
    SPACE, NEL and NBSP. *)
Definition is_space (c : ascii) : bool :=
  let n := ord c in
  ((9 <=? n) && (n <=? 13)) || ((28 <=? n) && (n <=? 32))
  || (n =? 133) || (n =? 160).

(** One-character lower-casing; below U+0100 the cased capitals are A-Z
    and U+00C0..U+00DE without the multiplication sign U+00D7. *)
Definition lower_char (c : ascii) : ascii :=
  let n := ord c in
  if ((65 <=? n) && (n <=? 90))
     || ((192 <=? n) && (n <=? 222) && negb (n =? 215))
  then chr (n + 32) else c.

Definition lower (s : str) : str := map lower_char s.

Definition ascii_eqb (a b : ascii) : bool := ord a =? ord b.

Fixpoint str_eqb (a b : str) : bool :=
  match a, b with
  | [], [] => true
  | x :: a', y :: b' => ascii_eqb x y && str_eqb a' b'
  | _, _ => false
  end.

(** [s.startswith(p)] *)
Fixpoint startswith (p s : str) : bool :=
  match p, s with
  | [], _ => true
  | x :: p', y :: s' => ascii_eqb x y && startswith p' s'
  | _ :: _, [] => false
  end.

(** [sub in s] *)
Fixpoint contains (sub s : str) : bool :=
  startswith sub s ||
  match s with
  | [] => false
  | _ :: s' => contains sub s'
  end.

(** [x in l] for a list of strings *)
Definition str_in (x : str) (l : list str) : bool := existsb (str_eqb x) l.

(** [s.replace(old, new)]: the occurrences of [old] are replaced from left
    to right without overlap.  [skip] counts the characters of an
    occurrence that are still to be dropped. *)
Fixpoint replace_from (old new : str) (skip : nat) (s : str) : str :=
  match s with
  | [] => match old, skip with [], O => new | _, _ => [] end
  | c :: s' =>
      match skip with
      | S k => replace_from old new k s'
      | O =>
          if startswith old s
          then match old with
               | [] => new ++ c :: replace_from old new 0 s'
               | _ :: o => new ++ replace_from old new (length o) s'
               end
          else c :: replace_from old new 0 s'
      end
  end.

Definition replace (old new s : str) : str := replace_from old new 0 s.

(** [s.rfind(sub)]: the highest index at which [sub] starts, or -1.
    [i] is the index of the head of [s]. *)
Fixpoint rfind_from (sub : str) (i : Z) (s : str) : Z :=
  match s with
  | [] => if startswith sub [] then i else -1
  | _ :: s' =>
      let r := rfind_from sub (i + 1) s' in
      if r =? -1 then (if startswith sub s then i else -1) else r
  end.

Definition rfind (sub s : str) : Z := rfind_from sub 0 s.

(** Slices [l[i:]] and [l[:j]]; a negative bound counts from the end. *)
Definition slice_from {A} (i : Z) (l : list A) : list A :=
  if i <? 0 then drop (Z.to_nat (Z.of_nat (length l) + i)) l
  else drop (Z.to_nat i) l.

Definition slice_to {A} (j : Z) (l : list A) : list A :=
  if j <? 0 then take (Z.to_nat (Z.of_nat (length l) + j)) l
  else take (Z.to_nat j) l.

(** [sep.join(lines)] *)
Fixpoint join (sep : str) (lines : list str) : str :=
  match lines with
  | [] => []
  | [x] => x
  | x :: rest => x ++ sep ++ join sep rest
  end.

(** [str(n)] for an integer, as an f-string renders it. *)
Definition str_of_Z (n : Z) : str :=
  list_ascii_of_string (NilZero.string_of_int (Z.to_int n)).

(** ** [float] and [round]

    A Python float is an IEEE 754 binary64 number.  Only non-negative values
    arise here; a finite one is kept as [m * 2^e] exactly. *)

Inductive pyfloat :=
| Finite (m e : Z)
| Infinity.

(** The integer nearest to [a / b], ties to the even one ([0 <= a], [0 < b]). *)
Definition div_rne (a b : Z) : Z :=
  let q := a / b in
  match 2 * (a mod b) ?= b with
  | Lt => q
  | Gt => q + 1
  | Eq => if Z.even q then q else q + 1
  end.

(** [n / d / 2^e] as a fraction of integers. *)
Definition scale2 (n d e : Z) : Z * Z :=
  if 0 <=? e then (n, d * 2 ^ e) else (n * 2 ^ (- e), d).

(** The exponent [e] for which [n / d / 2^e] lies in [[2^52, 2^53)]. *)
Definition binade (n d : Z) : Z :=
  let e1 := Z.log2 n - Z.log2 d - 52 in
  let '(a, b) := scale2 n d e1 in
  if a / b <? 2 ^ 52 then e1 - 1 else e1.

(** Round the rational [n / d] ([0 <= n], [0 < d]) to the nearest binary64
    number, ties to even: 53 bits of precision, least exponent -1074,
    overflow to infinity from [2^1024] on. *)
Definition binary64 (n d : Z) : pyfloat :=
  if n =? 0 then Finite 0 0
  else
    let e := Z.max (-1074) (binade n d) in
    let '(a, b) := scale2 n d e in
    let m := div_rne a b in
    if (971 <? e) || ((e =? 971) && (m =? 2 ^ 53)) then Infinity
    else Finite m e.

(** The exact value of a finite float. *)
Definition Q_of_float (m e : Z) : Q :=
  if 0 <=? e then inject_Z (m * 2 ^ e) else Qmake m (Z.to_pos (2 ^ (- e))).

(** Float addition and multiplication: the exact result, rounded. *)
Definition fadd (x y : pyfloat) : pyfloat :=
  match x, y with
  | Finite m1 e1, Finite m2 e2 =>
      let e := Z.min e1 e2 in
      let '(a, b) := scale2 (m1 * 2 ^ (e1 - e) + m2 * 2 ^ (e2 - e)) 1 (- e) in
      binary64 a b
  | _, _ => Infinity
  end.

Definition fmul (x y : pyfloat) : pyfloat :=
  match x, y with
  | Finite m1 e1, Finite m2 e2 =>
      let '(a, b) := scale2 (m1 * m2) 1 (- (e1 + e2)) in
      binary64 a b
  | _, _ => Infinity
  end.

Definition float_of_Z (n : Z) : pyfloat := binary64 n 1.

(** [span p s]: the longest prefix of [s] whose characters satisfy [p],
    and what follows it. *)
Fixpoint span (p : ascii -> bool) (s : str) : str * str :=
  match s with
  | c :: s' => if p c then let '(a, b) := span p s' in (c :: a, b) else ([], s)
  | [] => ([], [])
  end.

(** The value of a run of digits, continuing from [acc]. *)
Fixpoint digits_value (acc : Z) (s : str) : Z :=
  match s with
  | [] => acc
  | c :: s' => digits_value (10 * acc + (ord c - 48)) s'
  end.

(** Decimal literals [digits] and [digits.digits], as the fraction
    [numerator / 10^k]. *)
Definition parse_decimal (tok : str) : option (Z * Z) :=
  let '(ip, rest) := span is_digit tok in
  match ip, rest with
  | [], _ => None
  | _ :: _, [] => Some (digits_value 0 ip, 1)
  | _ :: _, c :: fp =>
      if ascii_eqb c "."%char && negb (length fp =? 0)%nat && forallb is_digit fp
      then Some (digits_value 0 (ip ++ fp), 10 ^ Z.of_nat (length fp))
      else None
  end.

(** [float(tok)] for an unsigned decimal literal, the only form the call
    sites pass (they pass what [\d+(?:\.\d+)?] captured).  A literal too
    large for binary64 gives [inf]; no exception is raised for it. *)
Definition py_float (tok : str) : Result pyfloat :=
  match parse_decimal tok with
  | Some (n, d) => Ok (binary64 n d)
  | None => Raise ValueError
  end.

(** A float literal of the source text, such as [0.30]. *)
Definition float_lit (tok : str) : pyfloat :=
  match parse_decimal tok with
  | Some (n, d) => binary64 n d
  | None => Finite 0 0
  end.

(** [round(x)] with one argument: the nearest integer, ties to even, as an
    [int]; [round(inf)] raises [OverflowError]. *)
Definition py_round (x : pyfloat) : Result Z :=
  match x with
  | Infinity => Raise OverflowError
  | Finite m e =>
      if 0 <=? e then Ok (m * 2 ^ e) else Ok (div_rne m (2 ^ (- e)))
  end.

(** [int(x)]: truncation; [int(inf)] raises [OverflowError]. *)
Definition py_int (x : pyfloat) : Result Z :=
  match x with
  | Infinity => Raise OverflowError
  | Finite m e => if 0 <=? e then Ok (m * 2 ^ e) else Ok (m / 2 ^ (- e))
  end.

(** ** The [re] module

    Patterns are kept as syntax trees over the operators the sources use:
    literal characters, the classes [\s], [\d], [\D] and [[^\n]], the
    quantifiers [*], [*?] and [+] on a class, [(?:...)?] and one capturing
    group.  Matching is by backtracking, in the order [re] tries the
    alternatives: a greedy quantifier takes the longest run first, a lazy
    one the shortest. *)

Inductive cls := Space | Digit | NonDigit | NotNewline.

Definition in_cls (k : cls) (c : ascii) : bool :=
  match k with
  | Space => is_space c
  | Digit => is_digit c
  | NonDigit => negb (is_digit c)
  | NotNewline => negb (ascii_eqb c LF)
  end.

Inductive regex :=
| Eps
| Chr (c : ascii)
| Cat (r1 r2 : regex)
| Star (k : cls)
| StarLazy (k : cls)
| Plus (k : cls)
| Opt (r : regex)
| Group (r : regex).

(** A literal word of a pattern. *)
Fixpoint Lit (w : str) : regex :=
  match w with
  | [] => Eps
  | c :: w' => Cat (Chr c) (Lit w')
  end.

(** Flags: [re.IGNORECASE] or none. *)
Inductive flags := NOFLAG | IGNORECASE.

(** A literal character of the pattern against a character of the text. *)
Definition chr_match (fl : flags) (a c : ascii) : bool :=
  match fl with
  | NOFLAG => ascii_eqb a c
  | IGNORECASE => ascii_eqb (lower_char a) (lower_char c)
  end.

Section Matcher.
Context {T : Type}.
Variable fl : flags.

Fixpoint star_greedy (p : ascii -> bool) (k : str -> option T) (s : str)
  : option T :=
  match s with
  | c :: s' =>
      if p c
      then match star_greedy p k s' with
           | Some r => Some r
           | None => k s
           end
      else k s
  | [] => k s
  end.

Fixpoint star_lazy (p : ascii -> bool) (k : str -> option T) (s : str)
  : option T :=
  match k s with
  | Some r => Some r
  | None =>
      match s with
      | c :: s' => if p c then star_lazy p k s' else None
      | [] => None
      end
  end.

(** [rmatch r s g k]: match [r] at the head of [s], with [g] the text
    captured so far, and hand the rest of the text to [k]; when [k]
    fails the next alternative of [r] is tried. *)
Fixpoint rmatch (r : regex) (s : str) (g : option str)
         (k : str -> option str -> option T) : option T :=
  match r with
  | Eps => k s g
  | Chr a =>
      match s with
      | c :: s' => if chr_match fl a c then k s' g else None
      | [] => None
      end
  | Cat r1 r2 => rmatch r1 s g (fun s' g' => rmatch r2 s' g' k)
  | Star c => star_greedy (in_cls c) (fun s' => k s' g) s
  | StarLazy c => star_lazy (in_cls c) (fun s' => k s' g) s
  | Plus c =>
      match s with
      | x :: s' =>
          if in_cls c x
          then star_greedy (in_cls c) (fun s'' => k s'' g) s'
          else None
      | [] => None
      end
  | Opt r1 =>
      match rmatch r1 s g k with
      | Some x => Some x
      | None => k s g
      end
  | Group r1 =>
      rmatch r1 s g
        (fun s' _ => k s' (Some (take (length s - length s') s)))
  end.
End Matcher.

(** A match object: where it starts, [group(0)] and [group(1)]. *)
Record Match := {
  m_start : nat;
  group0 : str;
  group1 : option str;
}.

(** [m.group(1)] of a pattern whose group always takes part. *)
Definition group_1 (m : Match) : str := default [] (group1 m).

(** The match of [r] that starts at the head of [s], if any: the rest of
    the text after it and the capture. *)
Definition match_here (fl : flags) (r : regex) (s : str)
  : option (str * option str) :=
  rmatch fl r s None (fun s' g => Some (s', g)).

(** [re.search]: the match at the leftmost position that has one.  [i] is
    the index of the head of [s]. *)
Fixpoint search_from (fl : flags) (r : regex) (i : nat) (s : str)
  : option Match :=
  match match_here fl r s with
  | Some (s', g) =>
      Some {| m_start := i;
              group0 := take (length s - length s') s;
              group1 := g |}
  | None =>
      match s with
      | [] => None
      | _ :: s' => search_from fl r (S i) s'
      end
  end.

Definition re_search (r : regex) (s : str) (fl : flags) : option Match :=
  search_from fl r 0 s.

(** [re.findall] for a pattern with one group: the captures of the
    successive matches, each search resuming where the last match ended
    (one character further after an empty match).  At most
    [length s + 1] searches can take place. *)
Fixpoint findall_fuel (fuel : nat) (fl : flags) (r : regex) (s : str)
  : list str :=
  match fuel with
  | O => []
  | S fuel' =>
      match match_here fl r s with
      | Some (s', g) =>
          default [] g ::
            (if (length s' <? length s)%nat
             then findall_fuel fuel' fl r s'
             else match s with
                  | [] => []
                  | _ :: t => findall_fuel fuel' fl r t
                  end)
      | None =>
          match s with
          | [] => []
          | _ :: t => findall_fuel fuel' fl r t
          end
      end
  end.

Definition re_findall (r : regex) (s : str) : list str :=
  findall_fuel (S (length s)) NOFLAG r s.

(** ** Dictionaries in a store

    [scores] is a dict object: it is allocated by the dict display at the
    head of [extract_scores], updated in place by [scores[key] = ...] and
    returned by reference.  The store holds the dict objects; a computation
    threads the store and may raise. *)

Abbreviation dict := (gmap str Z).
Abbreviation heap := (list (gmap str Z)).
Definition loc := nat.

#[global] Instance Result_ret : MRet Result := fun A a => Ok a.

#[global] Instance Result_bind : MBind Result := fun A B f r =>
  match r with
  | Ok a => f a
  | Raise e => Raise e
  end.

#[global] Instance Result_fmap : FMap Result := fun A B f r =>
  match r with
  | Ok a => Ok (f a)
  | Raise e => Raise e
  end.

(** Computations over a state [S] that may raise. *)
Definition State (S A : Type) : Type := S -> Result (A * S).

#[global] Instance State_ret {S} : MRet (State S) := fun A a h => Ok (a, h).

#[global] Instance State_bind {S} : MBind (State S) := fun A B f c h =>
  match c h with
  | Ok (a, h') => f a h'
  | Raise e => Raise e
  end.

(** A pure computation that may raise. *)
Definition lift {S A} (r : Result A) : State S A :=
  fun h =>
    match r with
    | Ok a => Ok (a, h)
    | Raise e => Raise e
    end.

Abbreviation M := (State (list (gmap str Z))).

(** A dict display [{...}]: a new object. *)
Definition new_dict (d : gmap str Z) : M loc :=
  fun h => Ok (length h, h ++ [d]).

(** [d[key] = v] *)
Definition setitem (l : loc) (key : str) (v : Z) : M unit :=
  fun h => Ok (tt, alter (insert key v) l h).


(** [for x in l: body(x)] *)
Fixpoint for_each {A} (l : list A) (body : A -> M unit) : M unit :=
  match l with
  | [] => mret tt
  | x :: l' => body x;; for_each l' body
  end.

(** ** [extract_scores] (viral_or_fail.py) *)

(** Concatenation of the parts of a pattern. *)
Definition Seq (rs : list regex) : regex := foldr Cat Eps rs.

(** [(\d+(?:\.\d+)?)] *)
Definition NUMBER : regex :=
  Group (Seq [Plus Digit; Opt (Seq [Chr "."; Plus Digit])]).

(** [simple_patterns]:
    [Reach\s*Score\D*?(\d+(?:\.\d+)?)],
    [Engagement\s*Score\D*?(\d+(?:\.\d+)?)],
    [Virality\s*Score\D*?(\d+(?:\.\d+)?)], in the order of the display. *)
Definition simple_patterns : list (str * regex) :=
  [ ("reach",
     Seq [Lit "Reach"; Star Space; Lit "Score"; StarLazy NonDigit; NUMBER]);
    ("engagement",
     Seq [Lit "Engagement"; Star Space; Lit "Score"; StarLazy NonDigit; NUMBER]);
    ("virality",
     Seq [Lit "Virality"; Star Space; Lit "Score"; StarLazy NonDigit; NUMBER]) ].

(** [Weighted\s*Total[^\n]+] *)
Definition wt_pattern : regex :=
  Seq [Lit "Weighted"; Star Space; Lit "Total"; Plus NotNewline].

(** [(\d+(?:\.\d+)?)\s*/\s*100] *)
Definition slash100_pattern : regex :=
  Seq [NUMBER; Star Space; Chr "/"; Star Space; Lit "100"].

(** [round(float(tok))] *)
Definition round_float (tok : str) : Result Z :=
  x ← py_float tok; py_round x.

Definition extract_scores (algorithm_response : str) : M loc :=
  scores ← new_dict (list_to_map
    [ ("reach", 50); ("engagement", 50); ("virality", 50);
      ("weighted_total", 50) ]);
  let clean := replace "**" "" algorithm_response in
  for_each simple_patterns (fun '(key, pattern) =>
    match re_search pattern clean IGNORECASE with
    | Some m =>
        score ← lift (round_float (group_1 m));
        setitem scores key (Z.min 100 (Z.max 0 score))
    | None => mret tt
    end);;
  match re_search wt_pattern clean IGNORECASE with
  | Some wt_match =>
      let wt_line := group0 wt_match in
      (* Try 1 *)
      match re_search slash100_pattern wt_line NOFLAG with
      | Some score_match =>
          v ← lift (round_float (group_1 score_match));
          setitem scores "weighted_total" (Z.min 100 (Z.max 0 v))
      | None =>
          (* Try 2 *)
          let last_eq := rfind "=" wt_line in
          if negb (last_eq =? -1)
          then
            let after_eq := slice_from last_eq wt_line in
            let nums := re_findall NUMBER after_eq in
            match last nums with
            | Some tok =>
                v ← lift (round_float tok);
                setitem scores "weighted_total" (Z.min 100 (Z.max 0 v))
            | None => mret tt
            end
          else
            (* Try 3 *)
            match re_search NUMBER wt_line NOFLAG with
            | Some num_match =>
                v ← lift (round_float (group_1 num_match));
                setitem scores "weighted_total" (Z.min 100 (Z.max 0 v))
            | None => mret tt
            end
      end
  | None => mret tt
  end;;
  mret scores.

(** The outcome of a call as its caller sees it: the contents of the
    returned dict, or the exception. *)
Definition outcome (r : Result (loc * heap)) : Result (gmap str Z) :=
  match r with
  | Ok (l, h) => Ok (default ∅ (h !! l))
  | Raise e => Raise e
  end.

(** A call in a store without other objects. *)
Definition scores_of (text : str) : Result (gmap str Z) :=
  outcome (extract_scores text []).

(** ** Dict displays read by subscript

    [d[key]] raises [KeyError] when the key is absent. *)

Fixpoint getitem {V} (d : list (str * V)) (key : str) : Result V :=
  match d with
  | [] => Raise (KeyError key)
  | (k, v) :: d' => if str_eqb k key then Ok v else getitem d' key
  end.

(** ** [PLATFORMS] and [PLATFORM_RULES] (config/platform_rules.py)

    A dict display keeps its insertion order, so the rubric is an
    association list.  The weights are the float literals of the source.
    The dash of the Twitter/X [hot_take_factor] description lies above
    U+00FF and is kept as the bytes of its UTF-8 encoding. *)

Record criterion := {
  weight : pyfloat;
  c_description : str;
}.

Record rules := {
  description : str;
  format_hint : str;
  criteria : list (str * criterion);
}.

Definition PLATFORMS : list str :=
  ["TikTok"; "Twitter/X"; "YouTube"; "Instagram"].

Definition TikTok_rules : rules := {|
  description := "Short-form video platform driven by the For You Page algorithm";
  format_hint := "Short-form video (15-60s), vertical, with trending audio";
  criteria := [
    ("hook_strength",
     {| weight := float_lit "0.30";
        c_description :=
          "How strong is the opening hook? TikTok's algorithm " ++
          "measures retention in the first 1-3 seconds. A weak hook " ++
          "kills distribution." |});
    ("trend_alignment",
     {| weight := float_lit "0.25";
        c_description :=
          "Does the content ride a current trend, sound, or format? " ++
          "The FYP algorithm boosts content that matches trending " ++
          "signals." |});
    ("shareability",
     {| weight := float_lit "0.20";
        c_description :=
          "Would viewers send this to a friend or duet/stitch it? " ++
          "Shares are the highest-weight engagement signal on TikTok." |});
    ("hashtag_strategy",
     {| weight := float_lit "0.15";
        c_description :=
          "Are hashtags relevant and discoverable? Mixing niche and " ++
          "broad hashtags helps the algorithm classify and distribute " ++
          "content." |});
    ("audio_reference",
     {| weight := float_lit "0.10";
        c_description :=
          "Does the post reference or suggest a trending audio? " ++
          "TikTok's algorithm clusters content by audio for " ++
          "distribution." |})
  ];
|}.

Definition Twitter_rules : rules := {|
  description := "Text-first microblogging platform driven by engagement velocity";
  format_hint := "Tweet or thread, hot takes, quote-retweet bait";
  criteria := [
    ("hot_take_factor",
     {| weight := float_lit "0.30";
        c_description :=
          "Does the post have a strong, polarising, or surprising " ++
          "opinion? Twitter/X rewards engagement velocity — hot takes " ++
          "drive replies." |});
    ("quote_retweet_bait",
     {| weight := float_lit "0.25";
        c_description :=
          "Is the post structured to invite quote retweets? QRTs are " ++
          "Twitter/X's most powerful distribution mechanic." |});
    ("timing_relevance",
     {| weight := float_lit "0.20";
        c_description :=
          "Is this posted at the right moment? Twitter/X's algorithm " ++
          "heavily weights recency and real-time relevance." |});
    ("thread_potential",
     {| weight := float_lit "0.15";
        c_description :=
          "Could this expand into a thread? Threads increase " ++
          "time-on-post and signal depth to the algorithm." |});
    ("hashtag_strategy",
     {| weight := float_lit "0.10";
        c_description :=
          "Are hashtags used sparingly and strategically? " ++
          "Over-hashtagging on Twitter/X reduces credibility and " ++
          "reach." |})
  ];
|}.

Definition YouTube_rules : rules := {|
  description := "Long and short-form video platform driven by watch time and CTR";
  format_hint := "Video (Shorts or long-form), strong thumbnail + title";
  criteria := [
    ("thumbnail_clickability",
     {| weight := float_lit "0.25";
        c_description :=
          "Would the suggested thumbnail stop a scroll? YouTube's " ++
          "algorithm uses click-through rate as a primary ranking " ++
          "signal." |});
    ("title_curiosity_gap",
     {| weight := float_lit "0.25";
        c_description :=
          "Does the title create curiosity without being pure " ++
          "clickbait? The algorithm balances CTR against viewer " ++
          "satisfaction." |});
    ("watch_time_potential",
     {| weight := float_lit "0.20";
        c_description :=
          "Will viewers watch most of the video? Average view " ++
          "duration is YouTube's strongest ranking signal." |});
    ("seo_optimization",
     {| weight := float_lit "0.15";
        c_description :=
          "Are keywords, tags, and description optimised for search? " ++
          "YouTube is the world's second-largest search engine." |});
    ("community_engagement",
     {| weight := float_lit "0.15";
        c_description :=
          "Does the content encourage comments and likes? Engagement " ++
          "rate signals quality to YouTube's recommendation system." |})
  ];
|}.

Definition Instagram_rules : rules := {|
  description := "Visual-first platform driven by saves, shares, and Explore page";
  format_hint := "Reel, carousel, or single image with strong caption";
  criteria := [
    ("visual_appeal",
     {| weight := float_lit "0.30";
        c_description :=
          "Is the visual content eye-catching and high quality? " ++
          "Instagram's algorithm prioritises posts that generate " ++
          "saves and long views." |});
    ("caption_hook",
     {| weight := float_lit "0.20";
        c_description :=
          "Does the caption hook in the first line (before 'more')? " ++
          "Caption engagement drives the algorithm's interest " ++
          "scoring." |});
    ("carousel_potential",
     {| weight := float_lit "0.20";
        c_description :=
          "Could this be a swipeable carousel? Carousels get " ++
          "re-served by the algorithm when users didn't swipe through " ++
          "all slides." |});
    ("hashtag_reach",
     {| weight := float_lit "0.15";
        c_description :=
          "Is there a mix of niche and popular hashtags (20-30 " ++
          "range)? Instagram uses hashtags to classify content for " ++
          "Explore." |});
    ("story_crosspost",
     {| weight := float_lit "0.15";
        c_description :=
          "Is this structured to also work as a Story or Reel? " ++
          "Cross-format posting increases total distribution surface." |})
  ];
|}.

Definition PLATFORM_RULES : list (str * rules) :=
  [ ("TikTok", TikTok_rules); ("Twitter/X", Twitter_rules);
    ("YouTube", YouTube_rules); ("Instagram", Instagram_rules) ].

(** The weights of a rubric, in the order of its criteria. *)
Definition weights (r : rules) : list pyfloat :=
  map (fun c => weight c.2) (criteria r).

(** The exact value of a float; infinity has none. *)
Definition float_value (x : pyfloat) : option Q :=
  match x with
  | Finite m e => Some (Q_of_float m e)
  | Infinity => None
  end.

(** The exact sum of the values of a list of floats. *)
Fixpoint exact_sum (ws : list pyfloat) : option Q :=
  match ws with
  | [] => Some 0%Q
  | w :: ws' =>
      x ← float_value w; y ← exact_sum ws'; Some (Qred (x + y))
  end.

(** [sum(ws)] in float arithmetic, from left to right. *)
Definition float_sum (ws : list pyfloat) : pyfloat :=
  foldl fadd (float_of_Z 0) ws.

(** The tolerance of a comparison of floats, [1e-9]. *)
Definition tolerance : Q := 1 # 1000000000.

(** [build_scoring_rubric] (viral_or_fail.py): the rubric of a platform as
    the text handed to the evaluator. *)
Definition build_scoring_rubric (platform : str) : Result str :=
  rules ← getitem PLATFORM_RULES platform;
  let lines :=
    ["Platform: " ++ platform; "Description: " ++ description rules; ""] in
  let lines := lines ++ ["Scoring Criteria (use these exact weights):"] in
  lines ← foldl (fun acc '(name, info) =>
      lines ← acc;
      weight_pct ← py_int (fmul (weight info) (float_of_Z 100));
      mret (lines ++ ["- " ++ name ++ " (" ++ str_of_Z weight_pct ++ "%): "
                        ++ c_description info]))
    (Ok lines) (criteria rules);
  mret (join nl lines).

(** A line of the rubric text for a criterion shown with [pct] percent. *)
Definition rubric_line (name : str) (pct : Z) (c : criterion) : str :=
  "- " ++ name ++ " (" ++ str_of_Z pct ++ "%): " ++ c_description c.

(** The error the specification names for a platform outside the static
    set.  The sources define no class of that name; it stands here as an
    exception of its own, which is none of the built-in ones. *)
Definition UnknownPlatformError : exn := Exception "UnknownPlatformError".

(** ** [fetch_gaming_trends] (tools/trends_tool.py) *)

(** A trending search as [trendspy] reports it: its keyword and its topic
    ids ([None] when it has none). *)
Record trend := {
  keyword : str;
  topics : option (list Z);
}.

Definition GAMES_TOPIC_ID : Z := 6.

Definition gaming_keywords : list str :=
  [ "game"; "gaming"; "gamer"; "esport"; "playstation"; "xbox";
    "nintendo"; "steam"; "twitch"; "fortnite"; "valorant"; "league";
    "minecraft"; "roblox"; "cod"; "warzone"; "apex"; "zelda";
    "mario"; "pokemon"; "gta"; "elden"; "final fantasy"; "ps5";
    "ps6"; "switch"; "gpu"; "rtx"; "dlc" ].


Section Trends.
(** What [open(SAMPLE_TRENDS_PATH, "r")] and [json.load(f)] give for
    [sample_trends.json], a data file of the repository: the object the
    file holds, as a dict display, or the exception raised when the file
    cannot be opened or is not JSON.  The file is not written while the
    fetcher runs. *)
Variable sample_file : Result (list (str * list str)).

(** What [Trends().trending_now(geo="US")] does, the import of [trendspy]
    included: it returns the trending searches or raises. *)
Variable trending_now : Result (list trend).

Definition _load_sample_trends : Result (list str) :=
  data ← sample_file;
  getitem data "trends".

(** The body of the [try] statement. *)
Definition fetch_live (count : Z) : Result (list str) :=
  all_trends ← trending_now;
  let gaming_trends :=
    map keyword
      (filter (fun t => existsb (Z.eqb GAMES_TOPIC_ID) (default [] (topics t)) = true)
              all_trends) in
  if (5 <=? Z.of_nat (length gaming_trends))
  then mret (slice_to count gaming_trends)
  else
    let keyword_matches :=
      map keyword
        (filter (fun t =>
                   negb (str_in (keyword t) gaming_trends)
                   && existsb (fun kw => contains kw (lower (keyword t)))
                              gaming_keywords = true)
           all_trends) in
    let gaming_trends := gaming_trends ++ keyword_matches in
    if (5 <=? Z.of_nat (length gaming_trends))
    then mret (slice_to count gaming_trends)
    else
      sample ← _load_sample_trends;
      let combined :=
        gaming_trends
          ++ filter (fun t => negb (str_in t gaming_trends) = true) sample in
      mret (slice_to count combined).

(** [try: ... except Exception: return _load_sample_trends()[:count]] *)
Definition fetch_gaming_trends (count : Z) : Result (list str) :=
  match fetch_live count with
  | Ok r => Ok r
  | Raise e =>
      sample ← _load_sample_trends;
      mret (slice_to count sample)
  end.
End Trends.

(** ** The round loop of [run_game] (viral_or_fail.py)

    The three agents and the player are the environment of the loop.
    [get_agent_response] sends one message to an agent and returns its
    reply, or raises when the backend fails; [Prompt.ask] returns the
    player's validated choice, ["1"] or ["2"].  What the session does is
    recorded in a log: the chats in the order they took place, the prompts
    and the final scorecard. *)

Inductive agent := Creator | Algorithm | Audience.

Inductive event :=
| Chat (a : agent) (message reply : str)
| Asked (choice : str)
| Scorecard (topic platform persona_name : str)
            (reach engagement virality weighted_total iteration : Z).

Record world := {
  store : list (gmap str Z);
  log : list event;
}.

Record Env := {
  (** the reply to the [n]-th chat of the session *)
  respond : nat -> agent -> str -> Result str;
  (** the answer to the [n]-th prompt of the session *)
  answer : nat -> str;
}.

Abbreviation G := (State world).

Definition is_chat (ev : event) : bool :=
  match ev with Chat _ _ _ => true | _ => false end.

Definition is_asked (ev : event) : bool :=
  match ev with Asked _ => true | _ => false end.


(** A computation on the dict store, run inside the session. *)
Definition on_store {A} (c : M A) : G A :=
  fun w =>
    match c (store w) with
    | Ok (a, h) => Ok (a, {| store := h; log := log w |})
    | Raise e => Raise e
    end.

Definition get_agent_response (env : Env) (a : agent) (message : str)
  : G str :=
  fun w =>
    match respond env (length (filter (fun ev => is_chat ev = true) (log w))) a message with
    | Ok reply =>
        Ok (reply, {| store := store w;
                      log := log w ++ [Chat a message reply] |})
    | Raise e => Raise e
    end.

Definition Prompt_ask (env : Env) : G str :=
  fun w =>
    let choice := answer env (length (filter (fun ev => is_asked ev = true) (log w))) in
    Ok (choice, {| store := store w; log := log w ++ [Asked choice] |}).

Definition MAX_ITERATIONS : Z := 3.

(** What the setup phase of [run_game] hands to the loop. *)
Record setup := {
  topic : str;
  platform : str;
  persona_name : str;
  persona_description : str;
  rubric : str;
}.

(** The local variables the loop updates. *)
Record locals := {
  iteration : Z;
  creator_response : str;
  algorithm_response : str;
  audience_response : str;
  scores : loc;
}.

Definition creator_prompt (su : setup) (hint : str) : str :=
  "Create a " ++ platform su ++ " post about this trending gaming topic: "
  ++ topic su ++ nl ++ nl
  ++ "Platform: " ++ platform su ++ nl
  ++ "Format hint: " ++ hint ++ nl ++ nl
  ++ "Make it feel native to " ++ platform su
  ++ ". Go hard " ++ [chr 226; chr 128; chr 148]
  ++ " safe content doesn't go viral.".

Definition revision_prompt (su : setup) (st : locals) : str :=
  "REVISION REQUEST (Round " ++ str_of_Z (iteration st) ++ "/"
  ++ str_of_Z MAX_ITERATIONS ++ "):" ++ nl ++ nl
  ++ "The Algorithm Simulator and Audience Persona reviewed your "
  ++ platform su ++ " post about '" ++ topic su
  ++ "'. Here's their feedback:" ++ nl ++ nl
  ++ "--- ALGORITHM FEEDBACK ---" ++ nl ++ algorithm_response st ++ nl ++ nl
  ++ "--- AUDIENCE FEEDBACK (" ++ persona_name su ++ ") ---" ++ nl
  ++ audience_response st ++ nl ++ nl
  ++ "Revise your content to address their concerns. Keep what works, "
  ++ "fix what doesn't. Show what you changed and why.".

Definition algorithm_prompt (su : setup) (st : locals) : str :=
  "Evaluate this " ++ platform su ++ " post about '" ++ topic su
  ++ "' using the platform's scoring rubric." ++ nl ++ nl
  ++ "--- SCORING RUBRIC ---" ++ nl ++ rubric su ++ nl ++ nl
  ++ "--- CONTENT TO EVALUATE ---" ++ nl ++ creator_response st ++ nl ++ nl
  ++ "Score each criterion out of 100, then calculate the weighted total. "
  ++ "Be specific and reference platform algorithm mechanics.".

Definition audience_prompt (su : setup) (st : locals) : str :=
  "You just saw this on your " ++ platform su ++ " feed. It's about '"
  ++ topic su ++ "'. React naturally as yourself." ++ nl ++ nl
  ++ "--- THE POST ---" ++ nl ++ creator_response st.

Section Game.
Variable env : Env.
Variable su : setup.
(** [PLATFORM_RULES[platform]['format_hint']] *)
Variable hint : str.

(** One pass through the body of the [while] statement.  The boolean
    says whether the pass ended in [break]. *)
Definition round_body (st : locals) : G (locals * bool) :=
  let iteration := iteration st + 1 in
  (* Step 1: Content Creator generates/revises *)
  creator_response ←
    (if iteration =? 1
     then get_agent_response env Creator (creator_prompt su hint)
     else get_agent_response env Creator
            (revision_prompt su
               {| iteration := iteration;
                  creator_response := creator_response st;
                  algorithm_response := algorithm_response st;
                  audience_response := audience_response st;
                  scores := scores st |}));
  let st1 := {| iteration := iteration;
                creator_response := creator_response;
                algorithm_response := algorithm_response st;
                audience_response := audience_response st;
                scores := scores st |} in
  (* Step 2: Algorithm Simulator scores the content *)
  algorithm_response ←
    get_agent_response env Algorithm (algorithm_prompt su st1);
  (* Step 3: Audience Persona reacts *)
  audience_response ←
    get_agent_response env Audience (audience_prompt su st1);
  (* Extract scores *)
  scores ← on_store (extract_scores algorithm_response);
  let st2 := {| iteration := iteration;
                creator_response := creator_response;
                algorithm_response := algorithm_response;
                audience_response := audience_response;
                scores := scores |} in
  (* Iterate or Lock In? *)
  if iteration <? MAX_ITERATIONS
  then
    choice ← Prompt_ask env;
    if str_eqb choice "2" then mret (st2, true) else mret (st2, false)
  else mret (st2, false).

(** [while iteration < MAX_ITERATIONS: ...], with [fuel] bounding the
    number of passes. *)
Fixpoint while_loop (fuel : nat) (st : locals) : G locals :=
  if iteration st <? MAX_ITERATIONS
  then
    match fuel with
    | O => mret st
    | S fuel' =>
        '(st', broke) ← round_body st;
        if broke : bool then mret st' else while_loop fuel' st'
    end
  else mret st.

End Game.

(** One full cycle, Generator then Evaluator then Reactor, as it stands in
    the log; [evaluation] is the reply of the Evaluator. *)
Definition cycle (evaluation : str) (l : list event) : Prop :=
  exists m1 r1 m2 m3 r3,
    l = [Chat Creator m1 r1; Chat Algorithm m2 evaluation;
         Chat Audience m3 r3].

(** The final scorecard for the score dict [d] after [n] rounds. *)
Definition scorecard_of (su : setup) (d : gmap str Z) (n : Z) : event :=
  Scorecard (topic su) (platform su)
    (persona_name su ++ " (" ++ persona_description su ++ ")")
    (default 50 (d !! "reach")) (default 50 (d !! "engagement"))
    (default 50 (d !! "virality")) (default 50 (d !! "weighted_total")) n.

(** A rubric whose weights are sound: each lies in [0, 1], and both their
    exact sum and their sum in float arithmetic are within the tolerance
    of 1. *)
Definition sound_weights (r : rules) : Prop :=
  (exists q, exact_sum (weights r) = Some q /\ (Qabs (q - 1) <= tolerance)%Q)
  /\ (exists q, float_value (float_sum (weights r)) = Some q
                /\ (Qabs (q - 1) <= tolerance)%Q)
  /\ Forall (fun w => exists q, float_value w = Some q /\ (0 <= q <= 1)%Q)
            (weights r).

(** ** What the patterns find, without the matcher

    The functions below say in plain recursion what each search of
    [extract_scores] looks for.  The theorems relate them to the
    backtracking matcher. *)

(** The leftmost suffix of [s] on which [f] succeeds. *)
Fixpoint leftmost {A} (f : str -> option A) (s : str) : option A :=
  match f s with
  | Some a => Some a
  | None =>
      match s with
      | [] => None
      | _ :: s' => leftmost f s'
      end
  end.

(** The word [w] at the head of [s]; the result is what follows it. *)
Fixpoint word_at (fl : flags) (w s : str) : option str :=
  match w, s with
  | [], _ => Some s
  | a :: w', c :: s' => if chr_match fl a c then word_at fl w' s' else None
  | _ :: _, [] => None
  end.

Definition skip_spaces (s : str) : str := snd (span is_space s).

(** A label at the head of [s]: the word [w1], any white space, the word
    [w2], in any case.  The result is what follows the label. *)
Definition label_at (w1 w2 s : str) : option str :=
  r ← word_at IGNORECASE w1 s; word_at IGNORECASE w2 (skip_spaces r).

(** The number at the head of [s]: its longest run of digits, with the
    longest fraction [.digits] when one follows.  The result is the number
    and what follows it. *)
Definition number_at (s : str) : option (str * str) :=
  match span is_digit s with
  | ([], _) => None
  | (ip, rest) =>
      match rest with
      | c :: r =>
          if ascii_eqb "."%char c
          then match span is_digit r with
               | ([], _) => Some (ip, rest)
               | (fp, rest') => Some (ip ++ c :: fp, rest')
               end
          else Some (ip, rest)
      | [] => Some (ip, [])
      end
  end.

(** The first number in [s]. *)
Definition first_number (s : str) : option str :=
  leftmost (fun s => fst <$> number_at s) s.

(** The numbers of [s] from left to right. *)
Fixpoint numbers_fuel (fuel : nat) (s : str) : list str :=
  match fuel with
  | O => []
  | S fuel' =>
      match number_at s with
      | Some (tok, rest) => tok :: numbers_fuel fuel' rest
      | None =>
          match s with
          | [] => []
          | _ :: s' => numbers_fuel fuel' s'
          end
      end
  end.

Definition numbers (s : str) : list str := numbers_fuel (S (length s)) s.

(** What follows the first occurrence of the label [w1\s*w2] in [s]. *)
Definition first_label (w1 w2 s : str) : option str :=
  leftmost (label_at w1 w2) s.

(** The first number after the first occurrence of the label. *)
Definition labelled_number (w1 w2 s : str) : option str :=
  r ← first_label w1 w2 s; first_number r.

(** The part of [s] before its first line feed. *)
Definition line_of (s : str) : str :=
  fst (span (fun c => negb (ascii_eqb c LF)) s).

(** The weighted-total label at the head of [s] with at least one
    character after it on its line: the text from the label to the end of
    that line. *)
Definition wt_line_at (s : str) : option str :=
  r ← label_at "Weighted" "Total" s;
  match line_of r with
  | [] => None
  | l => Some (take (length s - length r) s ++ l)
  end.

(** A number at the head of [s] followed by [/100], with optional white
    space around the slash. *)
Definition slash100_at (s : str) : option str :=
  '(tok, rest) ← number_at s;
  match skip_spaces rest with
  | c :: r =>
      if ascii_eqb "/"%char c && startswith "100" (skip_spaces r)
      then Some tok else None
  | [] => None
  end.

(** What follows the last occurrence of the character [c] in [s]. *)
Fixpoint after_last (c : ascii) (s : str) : option str :=
  match s with
  | [] => None
  | x :: s' =>
      match after_last c s' with
      | Some r => Some r
      | None => if ascii_eqb x c then Some s' else None
      end
  end.

(** The number [extract_scores] reads off a weighted-total line [L]. *)
Definition weighted_token (L : str) : option str :=
  match leftmost slash100_at L with
  | Some tok => Some tok
  | None =>
      match after_last "="%char L with
      | Some r => last (numbers r)
      | None => first_number L
      end
  end.

(** The number the three-step fallback of the specification reads off
    [L]: the number before [/100]; else the last number after the last
    [=]; else, whenever both fail, the first number of [L]. *)
Definition claimed_weighted_token (L : str) : option str :=
  match leftmost slash100_at L with
  | Some tok => Some tok
  | None =>
      match after_last "="%char L ≫= (fun r => last (numbers r)) with
      | Some tok => Some tok
      | None => first_number L
      end
  end.

Definition nondigit (c : ascii) : bool := negb (is_digit c).

(** The pattern of a simple field, [w\s*Score\D*?(\d+(?:\.\d+)?)]. *)
Definition simple_pattern (w : str) : regex :=
  Seq [Lit w; Star Space; Lit "Score"; StarLazy NonDigit; NUMBER].

(** [min(100, max(0, round(float(tok))))] *)
Definition clamp_round (tok : str) : Result Z :=
  v ← round_float tok; mret (Z.min 100 (Z.max 0 v)).

(** The value a field takes: the clamped number when there is one, the
    default 50 otherwise. *)
Definition field_value (tok : option str) : Result Z :=
  match tok with
  | Some t => clamp_round t
  | None => Ok 50
  end.

(** The statements [score = round(float(tok)); scores[key] = min(100,
    max(0, score))] of a field whose search found [tok], and nothing for a
    field whose search found none. *)
Definition assign (l : loc) (key : str) (tok : option str) : M unit :=
  match tok with
  | Some t =>
      score ← lift (round_float t);
      setitem l key (Z.min 100 (Z.max 0 score))
  | None => mret tt
  end.

Definition opt_clamp (tok : option str) : Result (option Z) :=
  match tok with
  | Some t => Some <$> clamp_round t
  | None => Ok None
  end.

Definition upd (key : str) (v : option Z) (d : gmap str Z) : gmap str Z :=
  match v with
  | Some x => <[key := x]> d
  | None => d
  end.

(** The dict display at the head of [extract_scores]. *)
Definition default_scores : gmap str Z :=
  list_to_map
    [ ("reach", 50); ("engagement", 50); ("virality", 50);
      ("weighted_total", 50) ].

(** The four fields as functions of the text. *)
Definition score_set (text : str) : Result (gmap str Z) :=
  let clean := replace "**" "" text in
  reach ← field_value (labelled_number "Reach" "Score" clean);
  engagement ← field_value (labelled_number "Engagement" "Score" clean);
  virality ← field_value (labelled_number "Virality" "Score" clean);
  weighted_total ← field_value (leftmost wt_line_at clean ≫= weighted_token);
  mret (list_to_map
    [ ("reach", reach); ("engagement", engagement); ("virality", virality);
      ("weighted_total", weighted_total) ]).

(** The number each field is read from. *)
Definition field_token (key : str) (clean : str) : option str :=
  if str_eqb key "reach" then labelled_number "Reach" "Score" clean
  else if str_eqb key "engagement"
  then labelled_number "Engagement" "Score" clean
  else if str_eqb key "virality" then labelled_number "Virality" "Score" clean
  else if str_eqb key "weighted_total"
  then leftmost wt_line_at clean ≫= weighted_token
  else None.

Definition field_keys : list str :=
  ["reach"; "engagement"; "virality"; "weighted_total"].

(** A number that ends where [post] begins: [post] starts neither with
    a digit nor with a full stop and a digit. *)
Definition ends_number (post : str) : bool :=
  match post with
  | [] => true
  | c :: r =>
      negb (is_digit c)
      && negb (ascii_eqb "."%char c
               && match r with y :: _ => is_digit y | [] => false end)
  end.

(** The labels of the three simple fields. *)
Definition simple_fields : list (str * str) :=
  [("reach", "Reach"); ("engagement", "Engagement"); ("virality", "Virality")].

(** The even one of [k] and [k + 1]. *)
Definition half_even (k : Z) : Z := if Z.even k then k else k + 1.

(** The call on [text] returns and the field [key] of its dict is [v]. *)
Definition reads (text key : str) (v : Z) : Prop :=
  exists d, scores_of text = Ok d /\ d !! key = Some v.

(** [extract_scores(text)[key]] *)
Definition field_of (text key : str) : Result (option Z) :=
  match scores_of text with
  | Ok d => Ok (d !! key)
  | Raise e => Raise e
  end.

(** A text on which [extract_scores] raises. *)
Definition overflow_text : str := "Reach Score: 2" ++ repeat "0"%char 308.

(** The number the weighted-total statements read, through the matcher. *)
Definition wt_token_code (clean : str) : option str :=
  match re_search wt_pattern clean IGNORECASE with
  | Some wt_match =>
      let wt_line := group0 wt_match in
      match re_search slash100_pattern wt_line NOFLAG with
      | Some score_match => Some (group_1 score_match)
      | None =>
          if negb (rfind "=" wt_line =? -1)
          then last (re_findall NUMBER (slice_from (rfind "=" wt_line) wt_line))
          else group_1 <$> re_search NUMBER wt_line NOFLAG
      end
  | None => None
  end.

(** The numbers of chats and of prompts in a log. *)
Definition chats (l : list event) : nat :=
  length (filter (fun ev => is_chat ev = true) l).

Definition asks (l : list event) : nat :=
  length (filter (fun ev => is_asked ev = true) l).

(** A scripted session: the agents always give the same replies and the
    player locks in at the first prompt. *)
Definition scripted_env : Env := {|
  respond := fun _ a _ =>
    Ok (match a with
        | Creator => "POV: you beat the boss first try"
        | Algorithm =>
            "Reach Score: 72" ++ nl ++ "Engagement Score: 64.5" ++ nl
            ++ "Virality Score: 58" ++ nl
            ++ "**Weighted Total:** 21.6 + 16 + 11.6 + 9 + 6 = **64.2/100**"
        | Audience => "lol ngl this is kinda fire"
        end);
  answer := fun _ => "2";
|}.

Definition scripted_setup : setup := {|
  topic := "Elden Ring DLC";
  platform := "TikTok";
  persona_name := "CasualChloe";
  persona_description := "Casual mobile gamer";
  rubric := "Platform: TikTok";
|}.

(** The longest run of decimal digits in [s]; [run] is the length of the
    run that ends just before [s]. *)
Fixpoint longest_run (run : nat) (s : str) : nat :=
  match s with
  | [] => run
  | c :: s' =>
      if is_digit c then longest_run (S run) s'
      else Nat.max run (longest_run 0 s')
  end.

Definition longest_digit_run (s : str) : nat := longest_run 0 s.

(** [tok] is the number at the head of some part of [s]. *)
Definition comes_from (tok s : str) : Prop :=
  exists a x c rest, s = a ++ x ++ c /\ number_at x = Some (tok, rest).

(** ** [display_scorecard] (viral_or_fail.py)

    The function hands three things to the console: the rows of the score
    table, the rows of the summary table and the verdict. *)

Definition get_rating (score : Z) : str :=
  if 85 <=? score then "[bold green]VIRAL[/bold green]"
  else if 70 <=? score then "[green]Strong[/green]"
  else if 50 <=? score then "[yellow]Decent[/yellow]"
  else if 30 <=? score then "[red]Weak[/red]"
  else "[bold red]FAIL[/bold red]".

Record scorecard := {
  table : list (str * str * str);
  info_table : list (str * str);
  verdict : str;
}.

Definition display_scorecard (topic platform persona_name : str)
    (reach engagement virality weighted_total iteration : Z) : scorecard :=
  {| table :=
       [ ("Reach", str_of_Z reach ++ "/100", get_rating reach);
         ("Engagement", str_of_Z engagement ++ "/100", get_rating engagement);
         ("Virality", str_of_Z virality ++ "/100", get_rating virality);
         ("", "", "");
         ("[bold]Weighted Total[/bold]",
          "[bold]" ++ str_of_Z weighted_total ++ "/100[/bold]",
          get_rating weighted_total) ];
     info_table :=
       [ ("Topic", topic);
         ("Platform", platform);
         ("Audience Persona", persona_name);
         ("Iterations Used",
          str_of_Z iteration ++ "/" ++ str_of_Z MAX_ITERATIONS) ];
     verdict :=
       if 80 <=? weighted_total
       then "[bold green]YOUR CONTENT IS GOING VIRAL! The algorithm gods "
            ++ "smile upon you.[/bold green]"
       else if 60 <=? weighted_total
       then "[yellow]Solid content. You'll get decent reach but no "
            ++ "blowup.[/yellow]"
       else if 40 <=? weighted_total
       then "[red]Mid at best. The algorithm will bury this after the "
            ++ "first batch.[/red]"
       else "[bold red]FAIL. This is getting 12 views and 3 of them are "
            ++ "your alt accounts.[/bold red]" |}.

(** The scorecard a [Scorecard] entry of the log stands for. *)
Definition shown (ev : event) : option scorecard :=
  match ev with
  | Scorecard t p n r e v w i => Some (display_scorecard t p n r e v w i)
  | _ => None
  end.

(** ** [get_agent_response] (viral_or_fail.py), after [initiate_chat]

    A message of a chat history is a dict of strings.  [result] is absent
    ([None], or a result without a chat history) or carries the chat
    history. *)

Abbreviation message := (gmap str str).

Definition NO_RESPONSE : str := "No response generated.".

(** [msg.get("role") == "assistant" or msg.get("name") == agent.name] *)
Definition from_agent (agent_name : str) (msg : message) : bool :=
  bool_decide (msg !! "role" = Some "assistant")
  || bool_decide (msg !! "name" = Some agent_name).

(** The [for] loop over the reversed chat history: [None] when it ends
    without a [return]. *)
Fixpoint scan_history (agent_name : str) (msgs : list message)
  : option str :=
  match msgs with
  | [] => None
  | msg :: rest =>
      if from_agent agent_name msg
      then Some (default "" (msg !! "content"))
      else scan_history agent_name rest
  end.

(** The reply [get_agent_response] returns for the result of
    [initiate_chat]. *)
Definition agent_reply (agent_name : str) (result : option (list message))
  : str :=
  match result with
  | Some (msg :: rest) =>
      default NO_RESPONSE (scan_history agent_name (reverse (msg :: rest)))
  | Some [] | None => NO_RESPONSE
  end.

(** ** [select_trend] and [select_platform] (viral_or_fail.py) *)

(** [IndexError], kept as an [Exception] with its message. *)
Definition IndexError : exn := Exception "list index out of range".

(** [l[i]] for a list: a negative index counts from the end; out of range
    it raises [IndexError]. *)
Definition list_getitem {A} (l : list A) (i : Z) : Result A :=
  let n := Z.of_nat (length l) in
  let j := if i <? 0 then n + i else i in
  if (0 <=? j) && (j <? n)
  then match l !! Z.to_nat j with
       | Some x => Ok x
       | None => Raise IndexError
       end
  else Raise IndexError.

(** [[str(i) for i in range(1, n + 1)]] *)
Definition choices_upto (n : nat) : list str :=
  map (fun i => str_of_Z (Z.of_nat i)) (seq 1 n).

(** [IntPrompt.ask(..., choices=choices)] is the player's part: [ask] gives
    the number the prompt returns for a list of choices. *)
Definition select_trend (ask : list str -> Z) (trends : list str)
  : Result str :=
  let choice := ask (choices_upto (length trends)) in
  list_getitem trends (choice - 1).



(** An answer the prompt can return: the text of one of its choices. *)
Definition offered (ask : list str -> Z) (choices : list str) : Prop :=
  str_of_Z (ask choices) ∈ choices.

(** ** The setup of [run_game] (viral_or_fail.py): trends, the player's
    two choices, the format hint and the rubric.  [persona] is the
    persona the audience agent was created with. *)

Section Setup.
Variable sample_file : Result (list (str * list str)).
Variable trending_now : Result (list trend).
Variable ask_trend ask_platform : list str -> Z.
Variable persona : str * str.

End Setup.

(** The trends tagged with the Games topic, and those whose keyword holds
    a gaming keyword, in any case. *)
Definition games_tagged (t : trend) : bool :=
  existsb (Z.eqb GAMES_TOPIC_ID) (default [] (topics t)).

Definition keyword_hit (t : trend) : bool :=
  existsb (fun kw => contains kw (lower (keyword t))) gaming_keywords.

(** The live trends kept by the topic filter and by the keyword filter. *)
Definition tagged (ts : list trend) : list str :=
  map keyword (filter (fun t => games_tagged t = true) ts).

Definition keyword_matches (g : list str) (ts : list trend) : list str :=
  map keyword
    (filter (fun t => negb (str_in (keyword t) g) && keyword_hit t = true) ts).

(** The sample entries that pad the live trends [g]. *)
Definition padding (g sample : list str) : list str :=
  filter (fun t => negb (str_in t g) = true) sample.

(** A sample list of five topics. *)
Definition five_samples : list str :=
  ["Elden Ring DLC"; "GTA 6 trailer"; "Switch 2"; "Steam Deck"; "Zelda"].

(** A sample file that holds them. *)
Definition five_samples_file : Result (list (str * list str)) :=
  Ok [("trends", five_samples)].


(** ** The session with its log kept when it fails

    What a session has put on the console stays there when an exception
    ends it.  A [Traced] computation hands the world on also when it
    raises; the round loop of [run_game] is given once more with such
    computations, so that the log at the point of failure can be read. *)






Section Traced_game.
Variable env : Env.
Variable su : setup.
Variable hint : str.



End Traced_game.

Ltac cbn_re :=
  cbn -[rmatch Lit Seq startswith skip_spaces number_at word_at label_at].

(** * Characters *)

Ltac each_char c := destruct c as [[] [] [] [] [] [] [] []].

Lemma ascii_eqb_eq a c : ascii_eqb a c = true <-> a = c.
Proof.
  unfold ascii_eqb, ord. rewrite Z.eqb_eq. split; [|congruence].
  intros H. apply N2Z.inj in H.
  rewrite <- (ascii_N_embedding a), <- (ascii_N_embedding c). congruence.
Qed.

Lemma ascii_eqb_refl a : ascii_eqb a a = true.
Proof. by apply ascii_eqb_eq. Qed.

Lemma space_not_digit c : is_space c = true -> is_digit c = false.
Proof. each_char c; vm_compute; congruence. Qed.

Lemma digit_lower c : is_digit c = true -> lower_char c = c.
Proof. each_char c; vm_compute; congruence. Qed.

Lemma lower_digit a : is_digit (lower_char a) = true -> is_digit a = true.
Proof. each_char a; vm_compute; congruence. Qed.

Lemma chr_match_dot fl c : chr_match fl "."%char c = ascii_eqb "."%char c.
Proof. destruct fl; [done|]. each_char c; reflexivity. Qed.

Lemma chr_match_digit fl a c :
  chr_match fl a c = true -> is_digit c = true -> is_digit a = true.
Proof.
  destruct fl; simpl; rewrite ascii_eqb_eq.
  - by intros ->.
  - intros H Hc. apply lower_digit. rewrite H, digit_lower; done.
Qed.

(** * [span] *)

Lemma span_app p s : (span p s).1 ++ (span p s).2 = s.
Proof.
  induction s as [|c s IH]; simpl; [done|].
  destruct (p c); [|done]. destruct (span p s); simpl in *. by rewrite IH.
Qed.

Lemma span_fst_all p s : forallb p (span p s).1 = true.
Proof.
  induction s as [|c s IH]; simpl; [done|].
  destruct (p c) eqn:E; [|done]. destruct (span p s); simpl in *.
  by rewrite E, IH.
Qed.

Lemma span_cons_true p c s :
  p c = true -> span p (c :: s) = (c :: (span p s).1, (span p s).2).
Proof. simpl. intros ->. by destruct (span p s). Qed.

Lemma span_cons_false p c s : p c = false -> span p (c :: s) = ([], c :: s).
Proof. simpl. by intros ->. Qed.

Lemma span_all p s : forallb p s = true -> span p s = (s, []).
Proof.
  induction s as [|c s IH]; simpl; [done|].
  intros [-> H]%andb_prop. by rewrite (IH H).
Qed.

Lemma take_prefix (a b : str) : take (length (a ++ b) - length b) (a ++ b) = a.
Proof.
  rewrite length_app. replace (length a + length b - length b)%nat with (length a) by lia.
  by rewrite take_app_length.
Qed.

(** * The quantifiers *)

Section Quantifiers.
Context {T : Type}.
Implicit Types (k : str -> option T) (p : ascii -> bool).

(** A greedy run settles on its longest extent when the continuation
    accepts there, or when it refuses every text that still begins
    inside the run. *)
Lemma star_greedy_span p k s :
  k (span p s).2 <> None \/ (forall c s', p c = true -> k (c :: s') = None) ->
  star_greedy p k s = k (span p s).2.
Proof.
  intros H. induction s as [|c s IH]; simpl; [done|].
  destruct (p c) eqn:E; [|done].
  destruct (span p s) as [a b] eqn:Es; simpl in *.
  rewrite E, Es in H. simpl in H.
  rewrite IH by done.
  destruct (k b) eqn:Ek; [done|].
  destruct H as [H|H]; [done|]. by apply H.
Qed.

(** A lazy run stops at the first place the continuation accepts. *)
Lemma star_lazy_span p k s :
  (forall c s', p c = true -> k (c :: s') = None) ->
  k [] = None ->
  star_lazy p k s = k (span p s).2.
Proof.
  intros H H0. induction s as [|c s IH]; simpl.
  - by rewrite H0.
  - destruct (p c) eqn:E.
    + rewrite (H _ _ E), IH. by destruct (span p s).
    + simpl. by destruct (k (c :: s)).
Qed.
End Quantifiers.

(** * Single patterns *)

Section Patterns.
Context {T : Type}.
Variable fl : flags.
Implicit Types (k : str -> option str -> option T).

Lemma rmatch_Seq_cons r rs s g k :
  rmatch fl (Seq (r :: rs)) s g k
  = rmatch fl r s g (fun s' g' => rmatch fl (Seq rs) s' g' k).
Proof. reflexivity. Qed.

Lemma rmatch_Lit w s g k :
  rmatch fl (Lit w) s g k
  = match word_at fl w s with Some r => k r g | None => None end.
Proof.
  revert s; induction w as [|a w IH]; intros s; simpl; [done|].
  destruct s as [|c s]; [done|]. destruct (chr_match fl a c); [apply IH|done].
Qed.

Lemma rmatch_Star_Space s g k :
  (forall c s', is_space c = true -> k (c :: s') g = None) ->
  rmatch fl (Star Space) s g k = k (skip_spaces s) g.
Proof.
  intros H. simpl. rewrite star_greedy_span; [done|]. right. apply H.
Qed.
End Patterns.

Lemma number_at_app s tok rest :
  number_at s = Some (tok, rest) -> s = tok ++ rest /\ tok <> [].
Proof.
  unfold number_at. pose proof (span_app is_digit s) as Hs.
  destruct (span is_digit s) as [ip r] eqn:E; simpl in Hs.
  destruct ip as [|d ip]; [done|].
  destruct r as [|c r].
  { intros [= <- <-]. by rewrite <- Hs. }
  destruct (ascii_eqb "."%char c).
  - pose proof (span_app is_digit r) as Hr.
    destruct (span is_digit r) as [fp r'] eqn:E'; simpl in Hr.
    destruct fp as [|f fp].
    + intros [= <- <-]. by rewrite <- Hs.
    + intros [= <- <-]. split; [|done]. rewrite <- Hs, <- Hr.
      simpl. by rewrite <- app_assoc.
  - intros [= <- <-]. by rewrite <- Hs.
Qed.

Lemma number_at_digit s : 
  is_Some (number_at s) <-> exists c s', s = c :: s' /\ is_digit c = true.
Proof.
  unfold number_at. destruct s as [|c s].
  { simpl. split; [by intros [? ?]|by intros (?&?&?&?)]. }
  destruct (is_digit c) eqn:E.
  - rewrite span_cons_true by done. split; [eauto|]. intros _.
    destruct (span is_digit s).2 as [|x r]; [by eexists|].
    destruct (ascii_eqb "." x); [|by eexists].
    destruct (span is_digit r) as [[|??] ?]; by eexists.
  - rewrite span_cons_false by done. split; [by intros [? ?]|].
    intros (?&?&[= <- <-]&?). congruence.
Qed.

Section Number.
Context {T : Type}.
Variable fl : flags.
Implicit Types (k : str -> option str -> option T).

(** The number pattern takes the longest number at the head of the text,
    when the continuation accepts whatever follows, or when it refuses
    every text that begins with a digit or a full stop. *)
Lemma rmatch_NUMBER s g k :
  (forall s' g', k s' g' <> None)
  \/ (forall c s' g', is_digit c = true \/ c = "."%char -> k (c :: s') g' = None) ->
  rmatch fl NUMBER s g k
  = match number_at s with
    | Some (tok, rest) => k rest (Some tok)
    | None => None
    end.
Proof.
  intros Hk. unfold NUMBER, number_at, Seq.
  destruct s as [|x s]; [done|].
  cbn [rmatch foldr in_cls].
  change (in_cls Digit) with is_digit.
  destruct (is_digit x) eqn:Ex; [|by rewrite span_cons_false].
  rewrite span_cons_true by done.
  pose proof (span_app is_digit s) as Hs.
  destruct (span is_digit s) as [ip b] eqn:Es; simpl in Hs. subst s.
  cbn [fst snd].
  change (x :: ip ++ b) with ((x :: ip) ++ b).
  set (tot := (x :: ip) ++ b).
  set (kk := fun s' : str => k s' (Some (take (length tot - length s') tot))).
  assert (Hkk : forall a r, tot = a ++ r -> kk r = k r (Some a)).
  { intros a r ->. unfold kk. by rewrite take_prefix. }
  assert (Hkk_bad : (forall s', kk s' <> None) \/
            (forall c s', is_digit c = true \/ c = "."%char -> kk (c :: s') = None)).
  { destruct Hk as [Hk|Hk]; [left|right]; intros; apply Hk; done. }
  match goal with |- star_greedy _ ?K _ = _ => set (K1 := K) end.
  assert (HK1 : K1 b <> None \/
            (forall c s', is_digit c = true -> K1 (c :: s') = None)).
  { destruct Hkk_bad as [Ha|Hb].
    - left. unfold K1. destruct b as [|c r]; [apply Ha|].
      match goal with |- match ?m with _ => _ end <> _ => destruct m end;
        [done|apply Ha].
    - right. intros c s' Hc. unfold K1.
      rewrite chr_match_dot.
      destruct (ascii_eqb "." c) eqn:Ec.
      { apply ascii_eqb_eq in Ec. by subst c. }
      apply Hb. by left. }
  rewrite star_greedy_span by (by rewrite Es).
  rewrite Es. cbn [snd]. unfold K1. clear K1 HK1.
  destruct b as [|c r].
  { apply Hkk. subst tot. by rewrite app_nil_r. }
  rewrite chr_match_dot. destruct (ascii_eqb "." c) eqn:Ec; [|by apply Hkk].
  destruct r as [|y r]; [by apply Hkk|].
  destruct (is_digit y) eqn:Ey; [|rewrite span_cons_false by done; by apply Hkk].
  rewrite span_cons_true by done.
  pose proof (span_app is_digit r) as Hr.
  rewrite star_greedy_span.
  2:{ destruct Hkk_bad as [Ha|Hb]; [left; apply Ha|right].
      intros; apply Hb; by left. }
  destruct (span is_digit r) as [fp r']; simpl in Hr. subst r. cbn [fst snd].
  rewrite (Hkk ((x :: ip) ++ c :: y :: fp) r').
  2:{ subst tot. simpl. by rewrite <- app_assoc. }
  destruct (k r' _) eqn:Ek; [done|].
  destruct Hkk_bad as [Ha|Hb].
  - exfalso. eapply (Ha r'). by rewrite (Hkk ((x :: ip) ++ c :: y :: fp) r')
      by (subst tot; simpl; by rewrite <- app_assoc).
  - apply Hb. right. symmetry. by apply ascii_eqb_eq.
Qed.
End Number.

(** * [leftmost] and [re.search] *)

Lemma suffix_cons_case {A} (s' : list A) c s :
  s' `suffix_of` c :: s -> s' = c :: s \/ s' `suffix_of` s.
Proof.
  destruct s' as [|x s']; [right; apply suffix_nil|]. apply suffix_cons_inv.
Qed.

Lemma leftmost_None {A} (f : str -> option A) s :
  leftmost f s = None <-> forall s', s' `suffix_of` s -> f s' = None.
Proof.
  induction s as [|c s IH]; simpl.
  - split.
    + destruct (f []) eqn:E; [done|]. intros _ s' Hs.
      apply suffix_nil_inv in Hs. by subst.
    + intros H. by rewrite (H [] (suffix_nil _)).
  - destruct (f (c :: s)) eqn:E.
    + split; [done|]. intros H. by rewrite (H (c :: s)) in E.
    + rewrite IH. split.
      * intros H s' Hs. apply suffix_cons_case in Hs as [->|Hs]; [done|by apply H].
      * intros H s' Hs. apply H. by apply suffix_cons_r.
Qed.

(** The leftmost place where [f] then [g] succeed is the leftmost place
    where [f] succeeds, provided a failure of [g] there rules out every
    later place. *)
Lemma leftmost_bind {A} (f : str -> option str) (g : str -> option A) s :
  (forall s1 r1 s2 r2, f s1 = Some r1 -> g r1 = None ->
     s2 `suffix_of` s1 -> f s2 = Some r2 -> g r2 = None) ->
  leftmost (fun s => f s ≫= g) s = leftmost f s ≫= g.
Proof.
  intros H. induction s as [|c s IH]; simpl.
  - destruct (f []) eqn:E; simpl; [|done]. by destruct (g _).
  - destruct (f (c :: s)) as [r|] eqn:E; simpl; [|apply IH].
    destruct (g r) eqn:Eg; [done|].
    apply leftmost_None. intros s' Hs.
    destruct (f s') as [r'|] eqn:E'; simpl; [|done].
    eapply H; [exact E|exact Eg| |exact E']. by apply suffix_cons_r.
Qed.

Lemma search_group1 fl r (f : str -> option str) i s :
  (forall s, (fun x => default [] x.2) <$> match_here fl r s = f s) ->
  group_1 <$> search_from fl r i s = leftmost f s.
Proof.
  intros H. revert i. induction s as [|c s IH]; intros i; simpl;
    rewrite <- H; destruct (match_here fl r _) as [[s' g]|]; simpl; done.
Qed.

Lemma search_group0 fl r (f : str -> option str) i s :
  (forall s, (fun x => take (length s - length x.1) s) <$> match_here fl r s = f s) ->
  group0 <$> search_from fl r i s = leftmost f s.
Proof.
  intros H. revert i. induction s as [|c s IH]; intros i; simpl;
    rewrite <- H; destruct (match_here fl r _) as [[s' g]|]; simpl; done.
Qed.

(** * Words and labels *)

Lemma word_at_app fl w s r :
  word_at fl w s = Some r ->
  exists p, s = p ++ r /\ length p = length w /\
            (forallb nondigit w = true -> forallb nondigit p = true).
Proof.
  revert s. induction w as [|a w IH]; intros s; simpl.
  - intros [= ->]. by exists [].
  - destruct s as [|c s]; [done|].
    destruct (chr_match fl a c) eqn:E; [|done].
    intros (p & -> & Hl & Hd)%IH. exists (c :: p). simpl.
    split; [done|]. split; [by rewrite Hl|].
    intros [Ha Hw]%andb_prop. rewrite (Hd Hw), andb_true_r.
    unfold nondigit in *. destruct (is_digit c) eqn:Ec; [|done].
    by rewrite (chr_match_digit _ _ _ E Ec) in Ha.
Qed.

Lemma skip_spaces_app s :
  exists p, s = p ++ skip_spaces s /\ forallb nondigit p = true.
Proof.
  exists (span is_space s).1. split; [by rewrite span_app|].
  pose proof (span_fst_all is_space s) as H.
  induction (span is_space s).1 as [|c p IH]; simpl in *; [done|].
  apply andb_prop in H as [Hc Hp]. rewrite (IH Hp), andb_true_r.
  unfold nondigit. by rewrite space_not_digit.
Qed.

Lemma forallb_app' {A} (p : A -> bool) l1 l2 :
  forallb p (l1 ++ l2) = forallb p l1 && forallb p l2.
Proof. induction l1; simpl; [done|]. by rewrite IHl1, andb_assoc. Qed.

Lemma label_at_app w1 w2 s r :
  label_at w1 w2 s = Some r ->
  exists p, s = p ++ r /\
    (forallb nondigit w1 = true -> forallb nondigit w2 = true ->
     forallb nondigit p = true).
Proof.
  unfold label_at. destruct (word_at IGNORECASE w1 s) as [r1|] eqn:E1; simpl; [|done].
  intros E2.
  apply word_at_app in E1 as (p1 & -> & _ & H1).
  apply word_at_app in E2 as (p2 & E2 & _ & H2).
  destruct (skip_spaces_app r1) as (ps & E3 & H3).
  exists (p1 ++ ps ++ p2). split.
  - rewrite E3 at 1. rewrite E2. by rewrite <- !app_assoc.
  - intros Hw1 Hw2. by rewrite !forallb_app', H1, H2, H3.
Qed.

Lemma first_number_None s :
  first_number s = None <-> forallb nondigit s = true.
Proof.
  unfold first_number. induction s as [|c s IH]; simpl; [done|].
  unfold nondigit at 1.
  destruct (number_at (c :: s)) as [[tok r]|] eqn:E; simpl.
  - assert (is_Some (number_at (c :: s))) as (x & s' & [= <- <-] & Hc)%number_at_digit by (by rewrite E).
    by rewrite Hc.
  - rewrite IH. destruct (is_digit c) eqn:Ec; [|done].
    assert (is_Some (number_at (c :: s))) as [? ?] by (apply number_at_digit; eauto).
    congruence.
Qed.

Lemma nondigit_suffix (s s' : str) :
  s' `suffix_of` s -> forallb nondigit s = true -> forallb nondigit s' = true.
Proof. intros [p ->]. rewrite forallb_app'. by intros [_ ?]%andb_prop. Qed.

Lemma labelled_number_leftmost w1 w2 s :
  forallb nondigit w1 = true -> forallb nondigit w2 = true ->
  leftmost (fun s => label_at w1 w2 s ≫= first_number) s
  = labelled_number w1 w2 s.
Proof.
  intros Hw1 Hw2. unfold labelled_number, first_label. apply leftmost_bind.
  intros s1 r1 s2 r2 E1 N1 Hsuf E2.
  apply label_at_app in E1 as (p1 & -> & H1).
  apply label_at_app in E2 as (p2 & -> & _).
  apply first_number_None in N1. apply first_number_None.
  apply (nondigit_suffix (p1 ++ r1)).
  - etrans; [|exact Hsuf]. by apply suffix_app_r.
  - by rewrite forallb_app', H1, N1.
Qed.

(** * The patterns of [extract_scores] *)

Lemma space_not_S c : is_space c = true -> chr_match IGNORECASE "S"%char c = false.
Proof. each_char c; vm_compute; congruence. Qed.

Lemma space_not_T c : is_space c = true -> chr_match IGNORECASE "T"%char c = false.
Proof. each_char c; vm_compute; congruence. Qed.

Lemma space_not_slash c : is_space c = true -> ascii_eqb "/"%char c = false.
Proof. each_char c; vm_compute; congruence. Qed.

Lemma space_not_1 c : is_space c = true -> ascii_eqb "1"%char c = false.
Proof. each_char c; vm_compute; congruence. Qed.

Lemma digit_not_space c : is_digit c = true -> is_space c = false.
Proof. each_char c; vm_compute; congruence. Qed.

Lemma digit_not_slash c : is_digit c = true -> ascii_eqb "/"%char c = false.
Proof. each_char c; vm_compute; congruence. Qed.

Lemma number_at_nondigit c s : is_digit c = false -> number_at (c :: s) = None.
Proof. intros H. unfold number_at. by rewrite span_cons_false. Qed.

Lemma first_number_span s :
  first_number s = fst <$> number_at (span nondigit s).2.
Proof.
  unfold first_number. induction s as [|c s IH]; [done|].
  cbn [leftmost]. destruct (is_digit c) eqn:E.
  - rewrite span_cons_false by (unfold nondigit; by rewrite E). cbn [snd].
    assert (is_Some (number_at (c :: s))) as [[? ?] ->]
      by (apply number_at_digit; eauto).
    done.
  - rewrite span_cons_true by (unfold nondigit; by rewrite E). cbn [snd].
    by rewrite (number_at_nondigit _ _ E).
Qed.

(** The label part of a pattern. *)
Lemma rmatch_label {T} w1 a w2 rs s g (k : str -> option str -> option T) :
  (forall c, is_space c = true -> chr_match IGNORECASE a c = false) ->
  rmatch IGNORECASE (Seq (Lit w1 :: Star Space :: Lit (a :: w2) :: rs)) s g k
  = match label_at w1 (a :: w2) s with
    | Some r => rmatch IGNORECASE (Seq rs) r g k
    | None => None
    end.
Proof.
  intros Ha. rewrite rmatch_Seq_cons, rmatch_Lit. unfold label_at.
  destruct (word_at IGNORECASE w1 s) as [r1|]; cbn_re; [|done].
  rewrite rmatch_Seq_cons, rmatch_Star_Space.
  - by rewrite rmatch_Seq_cons, rmatch_Lit.
  - intros c s' Hc. rewrite rmatch_Seq_cons, rmatch_Lit. cbn [word_at]. by rewrite Ha.
Qed.

Lemma match_here_NUMBER fl s :
  match_here fl NUMBER s
  = match number_at s with
    | Some (tok, rest) => Some (rest, Some tok)
    | None => None
    end.
Proof. unfold match_here. rewrite rmatch_NUMBER; [done|by left]. Qed.

Lemma match_here_simple w s :
  (fun x => default [] x.2) <$> match_here IGNORECASE (simple_pattern w) s
  = label_at w "Score" s ≫= first_number.
Proof.
  unfold match_here, simple_pattern.
  rewrite rmatch_label by apply space_not_S.
  destruct (label_at w "Score" s) as [r|]; cbn_re; [|done].
  rewrite rmatch_Seq_cons. cbn [rmatch].
  change (in_cls NonDigit) with nondigit.
  rewrite first_number_span.
  rewrite star_lazy_span.
  - rewrite rmatch_Seq_cons.
    change (rmatch IGNORECASE NUMBER ?s None ?k) with (match_here IGNORECASE NUMBER s).
    rewrite match_here_NUMBER. by destruct (number_at _) as [[??]|].
  - intros c s' Hc. rewrite rmatch_Seq_cons.
    change (rmatch IGNORECASE NUMBER ?s None ?k) with (match_here IGNORECASE NUMBER s).
    rewrite match_here_NUMBER, number_at_nondigit; [done|].
    unfold nondigit in Hc. by destruct (is_digit c).
  - done.
Qed.

Lemma search_simple w s :
  forallb nondigit w = true ->
  group_1 <$> re_search (simple_pattern w) s IGNORECASE
  = labelled_number w "Score" s.
Proof.
  intros Hw. unfold re_search.
  rewrite (search_group1 _ _ (fun s => label_at w "Score" s ≫= first_number))
    by apply match_here_simple.
  by apply labelled_number_leftmost.
Qed.

Lemma search_NUMBER s :
  group_1 <$> re_search NUMBER s NOFLAG = first_number s.
Proof.
  unfold re_search, first_number. apply search_group1.
  intros s'. rewrite match_here_NUMBER. by destruct (number_at s') as [[??]|].
Qed.

Lemma findall_NUMBER s : re_findall NUMBER s = numbers s.
Proof.
  unfold re_findall, numbers. generalize (S (length s)) as n.
  intros n; revert s; induction n as [|n IH]; intros s; simpl; [done|].
  rewrite match_here_NUMBER.
  destruct (number_at s) as [[tok rest]|] eqn:E.
  - simpl. apply number_at_app in E as [-> Ht].
    assert ((length rest <? length (tok ++ rest))%nat = true) as ->.
    { apply Nat.ltb_lt. rewrite length_app. destruct tok; [done|simpl; lia]. }
    by rewrite IH.
  - destruct s; [done|apply IH].
Qed.

Lemma word_at_startswith w s :
  is_Some (word_at NOFLAG w s) <-> startswith w s = true.
Proof.
  revert s; induction w as [|a w IH]; intros s; simpl.
  - destruct s; split; eauto.
  - destruct s as [|c s]; [split; [by intros [??]|done]|].
    destruct (ascii_eqb a c); simpl; [apply IH|split; [by intros [??]|done]].
Qed.

Lemma skip_spaces_nonspace c s : is_space c = false -> skip_spaces (c :: s) = c :: s.
Proof. intros H. unfold skip_spaces. by rewrite span_cons_false. Qed.

Lemma match_here_slash100 s :
  (fun x => default [] x.2) <$> match_here NOFLAG slash100_pattern s
  = slash100_at s.
Proof.
  unfold match_here, slash100_pattern, slash100_at.
  assert (Hsl : forall T x s'' g (k : str -> option str -> option T) rs,
            is_space x = true ->
            rmatch NOFLAG (Seq (Chr "/" :: rs)) (x :: s'') g k = None).
  { intros. rewrite rmatch_Seq_cons. cbn [rmatch chr_match].
    by rewrite space_not_slash. }
  rewrite rmatch_Seq_cons, rmatch_NUMBER.
  2:{ right. intros c s' g' Hc. rewrite rmatch_Seq_cons, rmatch_Star_Space.
      - rewrite skip_spaces_nonspace.
        + rewrite rmatch_Seq_cons. cbn [rmatch chr_match].
          destruct Hc as [Hc| ->]; [by rewrite digit_not_slash|done].
        + destruct Hc as [Hc| ->]; [by apply digit_not_space|done].
      - intros; by apply Hsl. }
  destruct (number_at s) as [[tok rest]|]; cbn_re; [|done].
  rewrite rmatch_Seq_cons, rmatch_Star_Space by (intros; by apply Hsl).
  rewrite rmatch_Seq_cons. cbn [rmatch chr_match].
  destruct (skip_spaces rest) as [|c r]; [done|].
  destruct (ascii_eqb "/" c); cbn_re; [|done].
  rewrite rmatch_Seq_cons, rmatch_Star_Space.
  2:{ intros x s'' Hx. rewrite rmatch_Seq_cons, rmatch_Lit. cbn [word_at chr_match].
      by rewrite space_not_1. }
  rewrite rmatch_Seq_cons, rmatch_Lit.
  pose proof (word_at_startswith "100" (skip_spaces r)) as Hw.
  destruct (word_at NOFLAG "100" (skip_spaces r)) as [r'|].
  - destruct Hw as [-> _]; [done|by eexists].
  - destruct (startswith "100" (skip_spaces r)); [|done].
    destruct Hw as [_ [? ?]]; done.
Qed.

Lemma search_slash100 s :
  group_1 <$> re_search slash100_pattern s NOFLAG = leftmost slash100_at s.
Proof. unfold re_search. apply search_group1, match_here_slash100. Qed.

Lemma line_of_app s : s = line_of s ++ (span (fun c => negb (ascii_eqb c LF)) s).2.
Proof. unfold line_of. by rewrite span_app. Qed.

Lemma match_here_wt s :
  (fun x => take (length s - length x.1) s) <$> match_here IGNORECASE wt_pattern s
  = wt_line_at s.
Proof.
  unfold match_here, wt_pattern, wt_line_at.
  rewrite rmatch_label by apply space_not_T.
  destruct (label_at "Weighted" "Total" s) as [r|] eqn:E; cbn_re; [|done].
  apply label_at_app in E as (p & -> & _).
  rewrite rmatch_Seq_cons. cbn [rmatch].
  change (in_cls NotNewline) with (fun c => negb (ascii_eqb c LF)).
  unfold line_of.
  destruct r as [|x r]; [done|]. cbn [span].
  destruct (negb (ascii_eqb x LF)) eqn:Ex; [|done].
  rewrite star_greedy_span by (by left).
  pose proof (span_app (fun c => negb (ascii_eqb c LF)) r) as Hr.
  destruct (span _ r) as [l rest]; simpl in *. subst r.
  f_equal.
  change (S (length (l ++ rest))) with (length (x :: l ++ rest)).
  rewrite (take_prefix p (x :: l ++ rest)).
  replace (p ++ x :: l ++ rest) with ((p ++ x :: l) ++ rest)
    by (by rewrite <- app_assoc).
  by rewrite take_prefix.
Qed.

Lemma search_wt s :
  group0 <$> re_search wt_pattern s IGNORECASE = leftmost wt_line_at s.
Proof. unfold re_search. apply search_group0, match_here_wt. Qed.

(** * [rfind] and the slice after it *)

Lemma rfind_after_last s i :
  0 <= i ->
  match after_last "="%char s with
  | Some r => exists p, s = p ++ "="%char :: r /\ rfind_from "=" i s = i + Z.of_nat (length p)
  | None => rfind_from "=" i s = -1
  end.
Proof.
  revert i. induction s as [|x s IH]; intros i Hi; simpl; [done|].
  specialize (IH (i + 1) ltac:(lia)).
  destruct (after_last "=" s) as [r|].
  - destruct IH as (p & -> & ->). exists (x :: p). split; [done|].
    simpl length.
    destruct (i + 1 + Z.of_nat (length p) =? -1) eqn:E; lia.
  - rewrite IH. simpl.
    destruct (ascii_eqb x "=") eqn:E.
    + apply ascii_eqb_eq in E. subst x. exists []. simpl. split; [done|lia].
    + destruct (ascii_eqb "=" x) eqn:E'; [|done].
      apply ascii_eqb_eq in E'. subst x. done.
Qed.

Lemma after_eq_numbers L :
  match after_last "="%char L with
  | Some r =>
      rfind "=" L <> -1 /\
      re_findall NUMBER (slice_from (rfind "=" L) L) = numbers r
  | None => rfind "=" L = -1
  end.
Proof.
  pose proof (rfind_after_last L 0 ltac:(lia)) as H. unfold rfind.
  destruct (after_last "=" L) as [r|]; [|done].
  destruct H as (p & -> & ->). split; [lia|].
  unfold slice_from. rewrite Z.add_0_l.
  replace (Z.to_nat (Z.of_nat (length p))) with (length p) by lia.
  assert ((Z.of_nat (length p) <? 0) = false) as -> by (apply Z.ltb_ge; lia).
  rewrite drop_app_length. by rewrite findall_NUMBER.
Qed.

(** * [extract_scores] as a function of the text *)

Lemma alter_last {A} (f : A -> A) (h : list A) d :
  alter f (length h) (h ++ [d]) = h ++ [f d].
Proof.
  replace (length h) with (length h + 0)%nat by lia.
  by rewrite alter_app_r.
Qed.

Lemma setitem_last (h : list (gmap str Z)) d key v :
  setitem (length h) key v (h ++ [d]) = Ok (tt, h ++ [<[key := v]> d]).
Proof. unfold setitem. by rewrite alter_last. Qed.

Lemma assign_run (h : list (gmap str Z)) (d : gmap str Z) (key : str)
  (tok : option str) :
  assign (length h) key tok (h ++ [d])
  = match opt_clamp tok with
    | Ok v => Ok (tt, h ++ [upd key v d])
    | Raise e => Raise e
    end.
Proof.
  destruct tok as [t|]; [|done]. unfold assign, opt_clamp, clamp_round.
  cbn. destruct (round_float t) as [v|e]; cbn; [|done].
  apply setitem_last.
Qed.

Lemma search_assign l key r s fl :
  match re_search r s fl with
  | Some m =>
      score ← lift (round_float (group_1 m));
      setitem l key (Z.min 100 (Z.max 0 score))
  | None => mret tt
  end = assign l key (group_1 <$> re_search r s fl).
Proof. by destruct (re_search r s fl). Qed.

Lemma bind_run {S A B : Type} (c : State S A) (f : A -> State S B) h :
  (c ≫= f) h = match c h with Ok (a, h') => f a h' | Raise e => Raise e end.
Proof. reflexivity. Qed.

Lemma assign_last_run {B : Type} (h : list (gmap str Z)) (d : gmap str Z)
  (key : str) (tok : option str) (f : unit -> M B) :
  (assign (length h) key tok ≫= f) (h ++ [d])
  = match opt_clamp tok with
    | Ok v => f tt (h ++ [upd key v d])
    | Raise e => Raise e
    end.
Proof. rewrite bind_run, assign_run. by destruct (opt_clamp tok). Qed.

Ltac cbn_opt :=
  cbn [fmap option_fmap option_map mbind option_bind mret option_ret].

Lemma wt_token_code_spec clean :
  wt_token_code clean = leftmost wt_line_at clean ≫= weighted_token.
Proof.
  unfold wt_token_code. rewrite <- search_wt.
  destruct (re_search wt_pattern clean IGNORECASE) as [m|]; [|done].
  cbv zeta. cbn_opt. unfold weighted_token. rewrite <- search_slash100.
  destruct (re_search slash100_pattern (group0 m) NOFLAG) as [sm|]; [done|].
  cbn_opt. pose proof (after_eq_numbers (group0 m)) as H.
  destruct (after_last "=" (group0 m)) as [r|].
  - destruct H as [H1 ->]. by destruct (Z.eqb_spec (rfind "=" (group0 m)) (-1)).
  - rewrite H. apply search_NUMBER.
Qed.

Lemma default_scores_upd r e v w :
  upd "weighted_total" w (upd "virality" v (upd "engagement" e
    (upd "reach" r default_scores)))
  = list_to_map
      [ ("reach", default 50 r); ("engagement", default 50 e);
        ("virality", default 50 v); ("weighted_total", default 50 w) ].
Proof. destruct r, e, v, w; reflexivity. Qed.

Lemma field_value_opt_clamp tok :
  field_value tok = default 50 <$> opt_clamp tok.
Proof.
  destruct tok as [t|]; [|done]. cbn. by destruct (clamp_round t).
Qed.

Lemma wt_assign l clean :
  match re_search wt_pattern clean IGNORECASE with
  | Some wt_match =>
      match re_search slash100_pattern (group0 wt_match) NOFLAG with
      | Some score_match =>
          v ← lift (round_float (group_1 score_match));
          setitem l "weighted_total" (Z.min 100 (Z.max 0 v))
      | None =>
          if negb (rfind "=" (group0 wt_match) =? -1)
          then
            match last (re_findall NUMBER
                          (slice_from (rfind "=" (group0 wt_match))
                                      (group0 wt_match))) with
            | Some tok =>
                v ← lift (round_float tok);
                setitem l "weighted_total" (Z.min 100 (Z.max 0 v))
            | None => mret tt
            end
          else
            match re_search NUMBER (group0 wt_match) NOFLAG with
            | Some num_match =>
                v ← lift (round_float (group_1 num_match));
                setitem l "weighted_total" (Z.min 100 (Z.max 0 v))
            | None => mret tt
            end
      end
  | None => mret tt
  end = assign l "weighted_total" (wt_token_code clean).
Proof.
  unfold wt_token_code.
  destruct (re_search wt_pattern clean IGNORECASE) as [m|]; [|done].
  cbv zeta.
  destruct (re_search slash100_pattern (group0 m) NOFLAG) as [sm|]; [done|].
  destruct (negb _); [done|].
  by destruct (re_search NUMBER (group0 m) NOFLAG).
Qed.

Lemma extract_scores_run text h :
  extract_scores text h
  = match score_set text with
    | Ok d => Ok (length h, h ++ [d])
    | Raise e => Raise e
    end.
Proof.
  unfold extract_scores, score_set. cbv zeta.
  set (clean := replace "**" "" text).
  rewrite bind_run. cbn [new_dict].
  unfold simple_patterns. cbn [for_each]. cbv beta iota.
  rewrite !search_assign, wt_assign, wt_token_code_spec.
  change (list_to_map _) with default_scores at 1.
  fold (simple_pattern "Reach") (simple_pattern "Engagement")
       (simple_pattern "Virality").
  rewrite !search_simple by done.
  rewrite !field_value_opt_clamp.
  rewrite bind_run, assign_last_run.
  destruct (opt_clamp (labelled_number "Reach" _ _)) as [r|]; [|done].
  rewrite assign_last_run.
  destruct (opt_clamp (labelled_number "Engagement" _ _)) as [e|]; [|done].
  rewrite assign_last_run.
  destruct (opt_clamp (labelled_number "Virality" _ _)) as [v|]; [|done].
  cbn [mret State_ret]. rewrite assign_last_run.
  destruct (opt_clamp (_ ≫= weighted_token)) as [w|]; [|done].
  cbn [mret State_ret fmap Result_fmap mbind Result_bind Result_ret].
  by rewrite default_scores_upd.
Qed.

Lemma scores_of_score_set text : scores_of text = score_set text.
Proof.
  unfold scores_of. rewrite extract_scores_run.
  destruct (score_set text); [|done]. done.
Qed.

(** * Floats *)

Lemma div_rne_exact m d : 0 < d -> div_rne (m * d) d = m.
Proof.
  intros Hd. unfold div_rne.
  rewrite Z.div_mul, Z.mod_mul by lia.
  replace (2 * 0) with 0 by lia.
  by destruct (Z.compare_spec 0 d); try lia.
Qed.

Lemma div_rne_half k p :
  0 < p -> div_rne ((2 * k + 1) * p) (2 * p) = if Z.even k then k else k + 1.
Proof.
  intros Hp. unfold div_rne.
  assert (Hq : (2 * k + 1) * p = k * (2 * p) + p) by lia.
  assert ((2 * k + 1) * p / (2 * p) = k) as ->.
  { rewrite Hq. rewrite Z.div_add_l by lia. rewrite Z.div_small; lia. }
  assert ((2 * k + 1) * p mod (2 * p) = p) as ->.
  { rewrite Hq. rewrite Z.add_comm, Z.mod_add by lia. apply Z.mod_small. lia. }
  by rewrite Z.compare_refl.
Qed.

Lemma binade_below n d :
  0 < n -> 0 < d -> n < 2 ^ 52 * d -> binade n d <= -1.
Proof.
  intros Hn Hd Hlt. unfold binade.
  assert (Hlog : Z.log2 n <= Z.log2 d + 52).
  { transitivity (Z.log2 (d * 2 ^ 52)).
    - apply Z.log2_le_mono. lia.
    - rewrite Z.log2_mul_pow2 by lia. lia. }
  set (e1 := Z.log2 n - Z.log2 d - 52).
  assert (He1 : e1 <= 0) by (unfold e1; lia).
  clearbody e1. unfold scale2.
  destruct (Z.leb_spec 0 e1).
  - assert (e1 = 0) as -> by lia. rewrite Z.pow_0_r, Z.mul_1_r.
    assert (n / d < 2 ^ 52) by (apply Z.div_lt_upper_bound; lia).
    destruct (Z.ltb_spec (n / d) (2 ^ 52)); lia.
  - destruct (_ <? _); lia.
Qed.

(** A value [k + 1/2] below [2^52] is a binary64 number, so [float]
    returns it unchanged and [round] sees an exact tie. *)
Lemma binary64_half n d k :
  0 < d -> 0 <= k < 2 ^ 52 -> 2 * n = (2 * k + 1) * d ->
  exists m e, binary64 n d = Finite m e /\
    py_round (Finite m e) = Ok (if Z.even k then k else k + 1).
Proof.
  intros Hd Hk Hn.
  assert (Hn0 : 0 < n) by nia.
  assert (Hlt : n < 2 ^ 52 * d) by nia.
  pose proof (binade_below n d Hn0 Hd Hlt) as Hb.
  unfold binary64.
  destruct (Z.eqb_spec n 0); [lia|].
  set (e := Z.max (-1074) (binade n d)).
  assert (He : e <= -1) by lia.
  assert (He' : -1074 <= e) by lia.
  unfold scale2. destruct (Z.leb_spec 0 e); [lia|].
  set (p := 2 ^ (- e - 1)).
  assert (Hp : 0 < p) by (apply Z.pow_pos_nonneg; lia).
  assert (H2p : 2 ^ (- e) = 2 * p).
  { unfold p. rewrite <- Z.pow_succ_r by lia. f_equal. lia. }
  assert (Ha : n * 2 ^ (- e) = ((2 * k + 1) * p) * d) by (rewrite H2p; nia).
  rewrite Ha, div_rne_exact by done.
  destruct (Z.ltb_spec 971 e); [lia|].
  destruct (Z.eqb_spec e 971); [lia|]. simpl.
  eexists _, _. split; [done|].
  unfold py_round. destruct (Z.leb_spec 0 e); [lia|].
  by rewrite H2p, div_rne_half.
Qed.

Lemma digits_value_nonneg acc s :
  0 <= acc -> forallb is_digit s = true -> 0 <= digits_value acc s.
Proof.
  revert acc. induction s as [|c s IH]; intros acc Ha; simpl; [done|].
  intros [Hc Hs]%andb_prop. apply IH; [|done].
  unfold is_digit in Hc. lia.
Qed.

Lemma parse_decimal_pos tok n d :
  parse_decimal tok = Some (n, d) -> 0 <= n /\ 0 < d.
Proof.
  unfold parse_decimal.
  pose proof (span_fst_all is_digit tok) as Hip.
  destruct (span is_digit tok) as [ip rest]; simpl in Hip.
  destruct ip as [|x ip]; [done|].
  destruct rest as [|c fp].
  - intros [= <- <-]. split; [|lia].
    change (0 <= digits_value 0 (x :: ip)). by apply digits_value_nonneg.
  - destruct (ascii_eqb c "." && negb (length fp =? 0)%nat && forallb is_digit fp) eqn:E; [|done].
    apply andb_prop in E as [_ Hfp].
    intros [= <- <-]. split.
    + change (0 <= digits_value 0 ((x :: ip) ++ fp)).
      apply digits_value_nonneg; [done|].
      by rewrite forallb_app', Hip, Hfp.
    + apply Z.pow_pos_nonneg; lia.
Qed.

Lemma round_float_half tok n d k :
  parse_decimal tok = Some (n, d) ->
  0 <= k < 2 ^ 52 -> 2 * n = (2 * k + 1) * d ->
  round_float tok = Ok (if Z.even k then k else k + 1).
Proof.
  intros Hp Hk Hn. apply parse_decimal_pos in Hp as Hpos.
  destruct (binary64_half n d k) as (m & e & Hb & Hr); [lia|done|done|].
  unfold round_float, py_float. rewrite Hp. cbn. by rewrite Hb.
Qed.

(** * The score extractor *)

Lemma clamp_round_range tok v : clamp_round tok = Ok v -> 0 <= v <= 100.
Proof.
  unfold clamp_round. destruct (round_float tok) as [x|]; [|done].
  cbn. intros [= <-]. lia.
Qed.

Lemma field_value_range tok v : field_value tok = Ok v -> 0 <= v <= 100.
Proof.
  destruct tok as [t|]; cbn; [apply clamp_round_range|].
  intros [= <-]. lia.
Qed.

(** Whenever the call returns, the dict has the four fields and no other,
    each an integer of [0, 100]; a field whose search finds nothing is 50. *)
Lemma score_set_fields text d :
  score_set text = Ok d ->
  exists reach engagement virality weighted_total,
    d = list_to_map
          [ ("reach", reach); ("engagement", engagement);
            ("virality", virality); ("weighted_total", weighted_total) ]
    /\ field_value (labelled_number "Reach" "Score" (replace "**" "" text)) = Ok reach
    /\ field_value (labelled_number "Engagement" "Score" (replace "**" "" text)) = Ok engagement
    /\ field_value (labelled_number "Virality" "Score" (replace "**" "" text)) = Ok virality
    /\ field_value (leftmost wt_line_at (replace "**" "" text) ≫= weighted_token)
       = Ok weighted_total.
Proof.
  unfold score_set. cbv zeta.
  destruct (field_value (labelled_number "Reach" _ _)) as [r|]; [|done].
  destruct (field_value (labelled_number "Engagement" _ _)) as [e|]; [|done].
  destruct (field_value (labelled_number "Virality" _ _)) as [v|]; [|done].
  destruct (field_value (_ ≫= weighted_token)) as [w|]; [|done].
  cbn. intros [= <-]. by exists r, e, v, w.
Qed.

Lemma extract_scores_range text d :
  scores_of text = Ok d ->
  dom d = {[ "reach"; "engagement"; "virality"; "weighted_total" ]}
  /\ forall key v, d !! key = Some v -> 0 <= v <= 100.
Proof.
  rewrite scores_of_score_set.
  intros (r & e & v & w & -> & Hr & He & Hv & Hw)%score_set_fields.
  apply field_value_range in Hr, He, Hv, Hw. split.
  - cbn. rewrite !dom_insert_L, dom_empty_L. set_solver.
  - intros key x. cbn.
    rewrite !lookup_insert. repeat case_decide; try (intros [= <-]; lia).
Qed.

Lemma reads_field_of text key v :
  field_of text key = Ok (Some v) -> reads text key v.
Proof.
  unfold field_of, reads. destruct (scores_of text) as [d|]; [|done].
  intros [= H]. by exists d.
Qed.

(** Evaluation of the extractor on a given text. *)
Ltac run_extractor := apply reads_field_of; vm_compute; reflexivity.

(** C1 (the code departs from the claim): on the text "Reach Score: 2"
    followed by 308 zeros the extractor raises OverflowError, in whatever
    store it is called, where the claim has it return four integers:
    float gives inf for a literal of this size and round(inf) raises. *)
Theorem extract_scores_overflow :
  forall h, extract_scores overflow_text h = Raise OverflowError.
Proof.
  intros h. rewrite extract_scores_run.
  assert (score_set overflow_text = Raise OverflowError) as -> by (by vm_compute).
  done.
Qed.

(** C5: the outcome of a call is a function of the text alone.  Calls in
    two stores, whatever earlier calls left there, have the same outcome;
    a call that returns hands back a new dict, the one a call in an empty
    store computes, and leaves every dict of the store as it was; and in
    that dict a field whose search finds no number holds the default 50,
    whatever was extracted before. *)
Theorem extract_scores_pure :
  forall text h1 h2,
    outcome (extract_scores text h1) = outcome (extract_scores text h2)
    /\ (forall l h', extract_scores text h1 = Ok (l, h') ->
          exists d, scores_of text = Ok d /\ l = length h1 /\ h' = h1 ++ [d])
    /\ (forall d, scores_of text = Ok d ->
          let clean := replace "**" "" text in
          (labelled_number "Reach" "Score" clean = None ->
             d !! "reach" = Some 50)
          /\ (labelled_number "Engagement" "Score" clean = None ->
                d !! "engagement" = Some 50)
          /\ (labelled_number "Virality" "Score" clean = None ->
                d !! "virality" = Some 50)
          /\ (leftmost wt_line_at clean = None ->
                d !! "weighted_total" = Some 50)).
Proof.
  intros text h1 h2. rewrite !extract_scores_run, scores_of_score_set.
  split; [|split].
  - destruct (score_set text) as [d|]; [|done]. cbn.
    by rewrite !lookup_app_r, !Nat.sub_diag by lia.
  - intros l h'. destruct (score_set text) as [d|] eqn:E; [|done].
    intros [= <- <-]. by exists d.
  - intros d (r & e & v & w & -> & Hr & He & Hv & Hw)%score_set_fields clean.
    fold clean in Hr, He, Hv, Hw.
    repeat split; intros H.
    + rewrite H in Hr. injection Hr as <-. by vm_compute.
    + rewrite H in He. injection He as <-. by vm_compute.
    + rewrite H in Hv. injection Hv as <-. by vm_compute.
    + rewrite H in Hw. injection Hw as <-. by vm_compute.
Qed.

Lemma str_eqb_eq a b : str_eqb a b = true <-> a = b.
Proof.
  revert b; induction a as [|x a IH]; intros [|y b]; simpl; try done.
  rewrite andb_true_iff, ascii_eqb_eq, IH. split; [by intros [-> ->]|by intros [= -> ->]].
Qed.

(** Every field of a returned dict is the value of its token. *)
Lemma scores_of_field text d key :
  scores_of text = Ok d -> key ∈ field_keys ->
  exists v, field_value (field_token key (replace "**" "" text)) = Ok v
            /\ d !! key = Some v.
Proof.
  rewrite scores_of_score_set.
  intros (r & e & v & w & -> & Hr & He & Hv & Hw)%score_set_fields Hkey.
  unfold field_keys in Hkey. rewrite !elem_of_cons, elem_of_nil in Hkey.
  destruct Hkey as [->|[->|[->|[->|[]]]]]; eexists; (split; [eassumption|by vm_compute]).
Qed.

Lemma field_value_Some tok v :
  field_value (Some tok) = Ok v ->
  exists x, round_float tok = Ok x /\ v = Z.min 100 (Z.max 0 x).
Proof.
  cbn. unfold clamp_round. destruct (round_float tok) as [x|]; [|done].
  cbn. intros [= <-]. by exists x.
Qed.

Lemma scores_of_token text d key :
  scores_of text = Ok d -> key ∈ field_keys ->
  match field_token key (replace "**" "" text) with
  | Some tok =>
      exists x, round_float tok = Ok x
                /\ d !! key = Some (Z.min 100 (Z.max 0 x))
  | None => d !! key = Some 50
  end.
Proof.
  intros Hd Hkey. destruct (scores_of_field _ _ _ Hd Hkey) as (v & Hv & ->).
  destruct (field_token _ _) as [tok|].
  - apply field_value_Some in Hv as (x & Hx & ->). by exists x.
  - by injection Hv as <-.
Qed.

Lemma leftmost_drop {A} (f : str -> option A) pre s :
  (forall i, (i < length pre)%nat -> f (drop i (pre ++ s)) = None) ->
  leftmost f (pre ++ s) = leftmost f s.
Proof.
  induction pre as [|c pre IH]; intros H; [done|].
  pose proof (H 0%nat ltac:(simpl; lia)) as H0. simpl in H0.
  simpl. rewrite H0.
  apply IH. intros i Hi. apply (H (S i)). simpl; lia.
Qed.

Lemma leftmost_Some {A} (f : str -> option A) s a :
  leftmost f s = Some a -> exists s', s' `suffix_of` s /\ f s' = Some a.
Proof.
  induction s as [|c s IH]; simpl.
  - destruct (f []) eqn:E; [|done]. intros [= <-]. by exists [].
  - destruct (f (c :: s)) eqn:E.
    + intros [= <-]. by exists (c :: s).
    + intros (s' & Hs & Hf)%IH. exists s'. split; [by apply suffix_cons_r|done].
Qed.

Lemma number_at_65 post :
  ends_number post = true ->
  number_at ("6"%char :: "5"%char :: post) = Some ("65", post).
Proof.
  unfold number_at. intros H.
  rewrite !span_cons_true by done.
  destruct post as [|c r]; [done|].
  simpl in H. apply andb_prop in H as [Hc Hdot].
  rewrite span_cons_false by (by destruct (is_digit c)). cbn [fst snd].
  destruct (ascii_eqb "." c); [|done]. simpl in Hdot.
  destruct r as [|y r]; [done|].
  rewrite span_cons_false by (by destruct (is_digit y)). done.
Qed.

Lemma reach_65 pre post :
  (forall i, (i < length pre)%nat ->
     label_at "Reach" "Score" (drop i (pre ++ "Reach Score: 65" ++ post)) = None) ->
  ends_number post = true ->
  labelled_number "Reach" "Score" (pre ++ "Reach Score: 65" ++ post) = Some "65".
Proof.
  intros Hpre Hpost. unfold labelled_number, first_label.
  rewrite leftmost_drop by done.
  change (leftmost _ ("Reach Score: 65" ++ post)) with (Some (": 65" ++ post)).
  cbn [mbind option_bind]. unfold first_number.
  change (": 65" ++ post)
    with (":"%char :: " "%char :: "6"%char :: "5"%char :: post).
  cbn [leftmost]. rewrite !number_at_nondigit by done.
  cbn [fmap option_fmap option_map].
  by rewrite number_at_65.
Qed.

(** C3, as amended: when the call returns, each of reach, engagement and
    virality is read from the first number after the first occurrence of
    its label in the normalized text, searched without regard to case: the
    number is converted by float, rounded, clamped to [0, 100]; without
    such a number the field is 50.  In particular, when the normalized
    text contains "Reach Score: 65" with no earlier occurrence of the
    reach label, and the 65 is not continued by a digit or by a full stop
    and a digit, the extracted reach is 65. *)
Theorem simple_field_extraction :
  forall text d, scores_of text = Ok d ->
    let clean := replace "**" "" text in
    (forall key label, (key, label) ∈ simple_fields ->
       match labelled_number label "Score" clean with
       | Some tok =>
           exists x, round_float tok = Ok x
                     /\ d !! key = Some (Z.min 100 (Z.max 0 x))
       | None => d !! key = Some 50
       end)
    /\ (forall pre post,
          clean = pre ++ "Reach Score: 65" ++ post ->
          (forall i, (i < length pre)%nat ->
             label_at "Reach" "Score" (drop i clean) = None) ->
          ends_number post = true ->
          d !! "reach" = Some 65).
Proof.
  intros text d Hd clean.
  assert (Hall : forall key label, (key, label) ∈ simple_fields ->
            match labelled_number label "Score" clean with
            | Some tok =>
                exists x, round_float tok = Ok x
                          /\ d !! key = Some (Z.min 100 (Z.max 0 x))
            | None => d !! key = Some 50
            end).
  { intros key label Hin. unfold simple_fields in Hin.
    rewrite !elem_of_cons, elem_of_nil in Hin.
    destruct Hin as [[= -> ->]|[[= -> ->]|[[= -> ->]|[]]]];
      [apply (scores_of_token _ _ "reach" Hd)
      |apply (scores_of_token _ _ "engagement" Hd)
      |apply (scores_of_token _ _ "virality" Hd)];
      unfold field_keys; set_solver. }
  split; [exact Hall|].
  intros pre post Hclean Hpre Hpost.
  specialize (Hall "reach" "Reach" ltac:(unfold simple_fields; set_solver)).
  rewrite Hclean in Hall, Hpre. rewrite reach_65 in Hall by done.
  destruct Hall as (x & Hx & Hr).
  assert (x = 65) as -> by (vm_compute in Hx; congruence). exact Hr.
Qed.

(** C3, the claim as it stands fails: the text "Reach Score: 650" contains
    "Reach Score: 65" and has no earlier reach label, and its reach is 100. *)
Lemma reach_65_counterexample :
  "Reach Score: 650" = "" ++ "Reach Score: 65" ++ "0"
  /\ reads "Reach Score: 650" "reach" 100.
Proof. split; [done|run_extractor]. Qed.

Lemma simple_field_extraction_witness :
  reads ("Verdict" ++ nl ++ "**Reach Score:** 65/100") "reach" 65.
Proof.
  assert (H : reads ("Verdict" ++ nl ++ "**Reach Score:** 65/100") "reach" 65)
    by run_extractor.
  destruct H as (d & Hd & _). exists d. split; [exact Hd|].
  refine (proj2 (simple_field_extraction _ d Hd) ("Verdict" ++ nl) "/100" _ _ _).
  - vm_compute; reflexivity.
  - intros i Hi. simpl in Hi.
    do 8 (destruct i as [|i]; [vm_compute; reflexivity|]). lia.
  - reflexivity.
Defined.

(** C2, as amended: let L run from the first weighted-total label that has
    a character after it on its line to the end of that line, in the
    normalized text.  When the call returns, the weighted total is read
    from L: from the leftmost number followed by "/100" (white space
    allowed around the slash) if there is one; otherwise, if L has an "=",
    from the last number after the last "=", and it stays 50 when no
    number follows that "="; otherwise from the first number of L, and it
    stays 50 when L has no number.  The number is converted by float,
    rounded and clamped to [0, 100].  Without such an L the weighted total
    stays 50. *)
Theorem weighted_total_extraction :
  forall text d, scores_of text = Ok d ->
    let value_of (tok : option str) :=
      match tok with
      | Some t =>
          exists x, round_float t = Ok x
                    /\ d !! "weighted_total" = Some (Z.min 100 (Z.max 0 x))
      | None => d !! "weighted_total" = Some 50
      end in
    match leftmost wt_line_at (replace "**" "" text) with
    | None => d !! "weighted_total" = Some 50
    | Some L =>
        match leftmost slash100_at L with
        | Some tok => value_of (Some tok)
        | None =>
            match after_last "="%char L with
            | Some r => value_of (last (numbers r))
            | None => value_of (first_number L)
            end
        end
    end.
Proof.
  intros text d Hd value_of.
  pose proof (scores_of_token _ _ "weighted_total" Hd
                ltac:(unfold field_keys; set_solver)) as H.
  change (field_token "weighted_total" ?c)
    with (leftmost wt_line_at c ≫= weighted_token) in H.
  destruct (leftmost wt_line_at _) as [L|]; [|exact H].
  cbn [mbind option_bind] in H. unfold weighted_token in H.
  destruct (leftmost slash100_at L) as [tok|]; [exact H|].
  destruct (after_last "=" L) as [r|]; exact H.
Qed.

Lemma weighted_total_extraction_witness :
  reads "**Weighted Total:** (85*0.30) + (70*0.25) + ... = **69.25/100**"
    "weighted_total" 69.
Proof.
  assert (H : reads
    "**Weighted Total:** (85*0.30) + (70*0.25) + ... = **69.25/100**"
    "weighted_total" 69) by run_extractor.
  destruct H as (d & Hd & _). exists d. split; [exact Hd|].
  pose proof (weighted_total_extraction _ d Hd) as H.
  vm_compute in H. destruct H as (x & Hx & H). injection Hx as <-. exact H.
Defined.

(** C2, the claim as it stands fails: on the line "Weighted Total: 70 ="
    no number is followed by "/100" and no number follows the "=", so the
    fallback of the claim takes the first number of the line, 70; the
    extractor leaves the weighted total at 50. *)
Lemma weighted_total_counterexample :
  let text := "Weighted Total: 70 =" in
  leftmost wt_line_at (replace "**" "" text) = Some text
  /\ leftmost slash100_at text = None
  /\ (after_last "="%char text ≫= fun r => last (numbers r)) = None
  /\ claimed_weighted_token text = Some "70"
  /\ round_float "70" = Ok 70
  /\ reads text "weighted_total" 50.
Proof. repeat split; try (vm_compute; reflexivity). run_extractor. Qed.

(** * Texts without digits *)

Lemma number_at_None s : forallb nondigit s = true -> number_at s = None.
Proof.
  destruct s as [|c s]; [done|]. simpl. intros [Hc _]%andb_prop.
  apply number_at_nondigit. unfold nondigit in Hc. by destruct (is_digit c).
Qed.

Lemma numbers_fuel_None n s : forallb nondigit s = true -> numbers_fuel n s = [].
Proof.
  revert s. induction n as [|n IH]; intros s H; simpl; [done|].
  rewrite number_at_None by done. destruct s as [|c s]; [done|].
  apply IH. simpl in H. by apply andb_prop in H as [_ ?].
Qed.

Lemma slash100_None s :
  forallb nondigit s = true -> leftmost slash100_at s = None.
Proof.
  intros H. apply leftmost_None. intros s' Hs. unfold slash100_at.
  by rewrite number_at_None by (by eapply nondigit_suffix).
Qed.

Lemma after_last_suffix c s r : after_last c s = Some r -> r `suffix_of` s.
Proof.
  revert r. induction s as [|x s IH]; intros r; simpl; [done|].
  destruct (after_last c s) as [r'|].
  - intros [= <-]. by apply suffix_cons_r, IH.
  - destruct (ascii_eqb x c); [|done]. intros [= <-]. by apply suffix_cons_r.
Qed.

Lemma weighted_token_None L :
  forallb nondigit L = true -> weighted_token L = None.
Proof.
  intros H. unfold weighted_token. rewrite slash100_None by done.
  destruct (after_last "=" L) as [r|] eqn:E.
  - unfold numbers. rewrite numbers_fuel_None; [done|].
    eapply nondigit_suffix; [|exact H]. by eapply after_last_suffix.
  - by apply first_number_None.
Qed.

Lemma wt_line_at_nondigit s L :
  wt_line_at s = Some L ->
  (forall r, label_at "Weighted" "Total" s = Some r ->
             forallb nondigit (line_of r) = true) ->
  forallb nondigit L = true.
Proof.
  unfold wt_line_at. destruct (label_at "Weighted" "Total" s) as [r|] eqn:E; [|done].
  cbn [mbind option_bind]. intros HL Hline. specialize (Hline r eq_refl).
  apply label_at_app in E as (p & -> & Hp).
  destruct (line_of r) as [|x l] eqn:El; [done|]. injection HL as <-.
  rewrite take_prefix, forallb_app', Hp by done. done.
Qed.

(** C9, as amended: when, in the normalized text, no occurrence of the
    weighted-total label has a digit after it on the line where the label
    ends, a call that returns gives weighted_total = 50, whatever numbers
    stand on other lines.  The searches for reach, engagement and virality
    are not held to a line: each takes a number from the line after its
    label. *)
Theorem weighted_total_line_restricted :
  (forall text d, scores_of text = Ok d ->
     (forall s r, s `suffix_of` replace "**" "" text ->
        label_at "Weighted" "Total" s = Some r ->
        forallb nondigit (line_of r) = true) ->
     d !! "weighted_total" = Some 50)
  /\ reads ("Reach Score:" ++ nl ++ "65") "reach" 65
  /\ reads ("Engagement Score:" ++ nl ++ "65") "engagement" 65
  /\ reads ("Virality Score:" ++ nl ++ "65") "virality" 65.
Proof.
  split; [|repeat split; run_extractor].
  intros text d Hd Hlines.
  pose proof (scores_of_token _ _ "weighted_total" Hd
                ltac:(unfold field_keys; set_solver)) as H.
  change (field_token "weighted_total" ?c)
    with (leftmost wt_line_at c ≫= weighted_token) in H.
  destruct (leftmost wt_line_at _) as [L|] eqn:EL; [|exact H].
  apply leftmost_Some in EL as (s & Hs & HL).
  cbn [mbind option_bind] in H.
  rewrite weighted_token_None in H; [exact H|].
  eapply wt_line_at_nondigit; [exact HL|]. intros r. by apply Hlines.
Qed.

Lemma suffixes_check (P : str -> Prop) (s : str) :
  (forall i, (i <= length s)%nat -> P (drop i s)) ->
  forall s', s' `suffix_of` s -> P s'.
Proof.
  intros H s' [p ->]. specialize (H (length p)).
  rewrite drop_app_length in H. apply H. rewrite length_app. lia.
Qed.

Lemma weighted_total_line_restricted_witness :
  reads ("Weighted Total: n/a" ++ nl ++ "Final: 70/100") "weighted_total" 50.
Proof.
  assert (H : reads ("Weighted Total: n/a" ++ nl ++ "Final: 70/100")
                "weighted_total" 50) by run_extractor.
  destruct H as (d & Hd & _). exists d. split; [exact Hd|].
  apply (proj1 weighted_total_line_restricted _ d Hd).
  intros s r Hs. revert r. revert s Hs.
  apply (suffixes_check (fun s => forall r,
      label_at "Weighted" "Total" s = Some r ->
      forallb nondigit (line_of r) = true)).
  intros i Hi r.
  do 34 (destruct i as [|i]; [vm_compute; by intros [= <-]|]).
  vm_compute in Hi. lia.
Defined.

(** C9, the claim as it stands fails.  In the first text the label stands
    alone on its line, no digit after it there, and the weighted total is
    taken from the next line, where the label occurs again; in the second
    the label itself runs over the line break and the number after it is
    taken. *)
Lemma weighted_total_line_counterexample :
  let text1 := "Weighted Total" ++ nl ++ "Weighted Total: 70" in
  let text2 := "Weighted" ++ nl ++ "Total: 70" in
  (label_at "Weighted" "Total" text1 = Some (nl ++ "Weighted Total: 70")
   /\ line_of (nl ++ "Weighted Total: 70") = []
   /\ reads text1 "weighted_total" 70)
  /\ (line_of text2 = "Weighted"
      /\ label_at "Weighted" "Total" text2 = Some ": 70"
      /\ reads text2 "weighted_total" 70).
Proof. repeat split; try (vm_compute; reflexivity); run_extractor. Qed.

(** * Rounding *)

(** C10: every number the extractor reads goes through round(float(...)),
    which rounds a tie to the even neighbour.  A token whose value is
    exactly k + 1/2 rounds to k when k is even and to k + 1 when k is odd;
    so does the field read from it, whichever of the four it is, before
    the clamp.  So 61.5 after the last "=" gives 62 and 62.5 gives 62, and
    the other paths of the weighted total and the reach, engagement and
    virality fields do the same. *)
Theorem round_half_to_even :
  (forall tok n den k,
     parse_decimal tok = Some (n, den) ->
     0 <= k < 2 ^ 52 -> 2 * n = (2 * k + 1) * den ->
     round_float tok = Ok (half_even k))
  /\ (forall text d key tok n den k,
        scores_of text = Ok d -> key ∈ field_keys ->
        field_token key (replace "**" "" text) = Some tok ->
        parse_decimal tok = Some (n, den) ->
        0 <= k < 2 ^ 52 -> 2 * n = (2 * k + 1) * den ->
        d !! key = Some (Z.min 100 (Z.max 0 (half_even k))))
  /\ reads "Weighted Total: 60 + 1.5 = 61.5" "weighted_total" 62
  /\ reads "Weighted Total: 60 + 2.5 = 62.5" "weighted_total" 62
  /\ reads "Weighted Total: 61.5/100" "weighted_total" 62
  /\ reads "Weighted Total: 62.5/100" "weighted_total" 62
  /\ reads "Weighted Total: 61.5" "weighted_total" 62
  /\ reads "Weighted Total: 62.5" "weighted_total" 62
  /\ reads "Reach Score: 61.5" "reach" 62
  /\ reads "Reach Score: 62.5" "reach" 62
  /\ reads "Engagement Score: 61.5" "engagement" 62
  /\ reads "Engagement Score: 62.5" "engagement" 62
  /\ reads "Virality Score: 61.5" "virality" 62
  /\ reads "Virality Score: 62.5" "virality" 62.
Proof.
  split; [|split].
  - intros tok n den k. unfold half_even. apply round_float_half.
  - intros text d key tok n den k Hd Hkey Htok Hp Hk Hn.
    pose proof (scores_of_token _ _ _ Hd Hkey) as H. rewrite Htok in H.
    destruct H as (x & Hx & ->).
    rewrite (round_float_half _ _ _ _ Hp Hk Hn) in Hx. by injection Hx as <-.
  - repeat split; run_extractor.
Qed.

Lemma round_half_to_even_witness :
  round_float "62.50" = Ok 62 /\ round_float "61.5" = Ok 62.
Proof.
  split.
  - apply (proj1 round_half_to_even "62.50" 6250 100 62); [by vm_compute|lia|lia].
  - apply (proj1 round_half_to_even "61.5" 615 10 61); [by vm_compute|lia|lia].
Defined.

(** * The trend fetcher *)

Lemma slice_to_nonneg {A} (j : Z) (l : list A) :
  0 <= j -> slice_to j l = take (Z.to_nat j) l.
Proof. intros H. unfold slice_to. by destruct (Z.ltb_spec j 0); [lia|]. Qed.




(** * The rubric store *)

Lemma str_eqb_neq a b : a <> b -> str_eqb a b = false.
Proof.
  intros H. destruct (str_eqb a b) eqn:E; [|done]. by apply str_eqb_eq in E.
Qed.

Lemma rules_unique platform r r' :
  (platform, r) ∈ PLATFORM_RULES -> (platform, r') ∈ PLATFORM_RULES -> r' = r.
Proof.
  unfold PLATFORM_RULES. rewrite !elem_of_cons, !elem_of_nil.
  intros [[= -> ->]|[[= -> ->]|[[= -> ->]|[[= -> ->]|[]]]]]
         [[= ?]|[[= ?]|[[= ?]|[[= ?]|[]]]]]; done.
Qed.

(** C7, as amended: looking up the rubric of a platform outside the
    static set fails with the KeyError of the dict subscript, which
    carries the identifier, in the table and in build_scoring_rubric
    alike.  For each platform of the static set the lookup returns the
    one rubric the table holds for it, and build_scoring_rubric returns
    its text: the platform, the description, an empty line, the heading,
    and one line per criterion in the order of the table, with its name,
    its weight as a whole percentage and its description. *)
Theorem rubric_lookup :
  forall platform : str,
    (platform ∉ PLATFORMS ->
       getitem PLATFORM_RULES platform = Raise (KeyError platform)
       /\ build_scoring_rubric platform = Raise (KeyError platform))
    /\ (platform ∈ PLATFORMS ->
          exists (r : rules) (pcts : list Z),
            (platform, r) ∈ PLATFORM_RULES
            /\ (forall r', (platform, r') ∈ PLATFORM_RULES -> r' = r)
            /\ getitem PLATFORM_RULES platform = Ok r
            /\ build_scoring_rubric platform
               = Ok (join nl
                       ([ "Platform: " ++ platform;
                          "Description: " ++ description r;
                          "";
                          "Scoring Criteria (use these exact weights):" ]
                        ++ zip_with (fun c pct => rubric_line c.1 pct c.2)
                             (criteria r) pcts))
            /\ length pcts = length (criteria r)
            /\ Forall2 (fun c pct => weight c.2 = binary64 pct 100)
                 (criteria r) pcts).
Proof.
  intros platform. split.
  - intros Hnot. unfold PLATFORMS in Hnot.
    rewrite !not_elem_of_cons in Hnot. destruct Hnot as (H1 & H2 & H3 & H4 & _).
    assert (getitem PLATFORM_RULES platform = Raise (KeyError platform)) as Hg.
    { unfold PLATFORM_RULES. cbn [getitem].
      rewrite !str_eqb_neq by congruence. done. }
    split; [done|]. unfold build_scoring_rubric. by rewrite Hg.
  - intros Hin. unfold PLATFORMS in Hin.
    rewrite !elem_of_cons, elem_of_nil in Hin.
    destruct Hin as [->|[->|[->|[->|[]]]]].
    + exists TikTok_rules, [30; 25; 20; 15; 10].
      assert (Hr : ("TikTok", TikTok_rules) ∈ PLATFORM_RULES)
        by (unfold PLATFORM_RULES; set_solver).
      split; [exact Hr|]. split; [intros r'; by apply rules_unique|].
      split; [reflexivity|]. split; [vm_compute; reflexivity|].
      split; [reflexivity|]. repeat constructor; vm_compute; reflexivity.
    + exists Twitter_rules, [30; 25; 20; 15; 10].
      assert (Hr : ("Twitter/X", Twitter_rules) ∈ PLATFORM_RULES)
        by (unfold PLATFORM_RULES; set_solver).
      split; [exact Hr|]. split; [intros r'; by apply rules_unique|].
      split; [reflexivity|]. split; [vm_compute; reflexivity|].
      split; [reflexivity|]. repeat constructor; vm_compute; reflexivity.
    + exists YouTube_rules, [25; 25; 20; 15; 15].
      assert (Hr : ("YouTube", YouTube_rules) ∈ PLATFORM_RULES)
        by (unfold PLATFORM_RULES; set_solver).
      split; [exact Hr|]. split; [intros r'; by apply rules_unique|].
      split; [reflexivity|]. split; [vm_compute; reflexivity|].
      split; [reflexivity|]. repeat constructor; vm_compute; reflexivity.
    + exists Instagram_rules, [30; 20; 20; 15; 15].
      assert (Hr : ("Instagram", Instagram_rules) ∈ PLATFORM_RULES)
        by (unfold PLATFORM_RULES; set_solver).
      split; [exact Hr|]. split; [intros r'; by apply rules_unique|].
      split; [reflexivity|]. split; [vm_compute; reflexivity|].
      split; [reflexivity|]. repeat constructor; vm_compute; reflexivity.
Qed.

Lemma rubric_lookup_witness :
  build_scoring_rubric "Twitch" = Raise (KeyError "Twitch")
  /\ exists r, getitem PLATFORM_RULES "YouTube" = Ok r.
Proof.
  split.
  - apply (proj1 (rubric_lookup "Twitch")). unfold PLATFORMS.
    rewrite !not_elem_of_cons. repeat split; try discriminate.
    apply not_elem_of_nil.
  - destruct (proj2 (rubric_lookup "YouTube")) as (r & pcts & _ & _ & Hr & _).
    + unfold PLATFORMS. rewrite !elem_of_cons. auto.
    + by exists r.
Defined.

(** C7, the claim as it stands fails: "Twitch" is outside the static set,
    and what the lookup raises for it is a KeyError, not an
    UnknownPlatformError. *)
Lemma rubric_lookup_counterexample :
  ("Twitch" ∉ PLATFORMS)
  /\ getitem PLATFORM_RULES "Twitch" = Raise (KeyError "Twitch")
  /\ build_scoring_rubric "Twitch" = Raise (KeyError "Twitch")
  /\ KeyError "Twitch" <> UnknownPlatformError.
Proof.
  split; [|split; [|split]]; try reflexivity; [|discriminate].
  unfold PLATFORMS. rewrite !not_elem_of_cons. repeat split; try discriminate.
  apply not_elem_of_nil.
Qed.

Ltac Qle_compute := apply Qle_bool_imp_le; vm_compute; reflexivity.

Lemma Forall_weights (P : pyfloat -> Prop) (ws : list pyfloat) :
  (forall i w, ws !! i = Some w -> P w) -> Forall P ws.
Proof. intros H. apply Forall_lookup. exact H. Qed.

Ltac sound_weights_compute :=
  split; [|split];
  [ eexists; split; [vm_compute; reflexivity|Qle_compute]
  | eexists; split; [vm_compute; reflexivity|Qle_compute]
  | apply Forall_weights; intros i w;
    do 5 (destruct i as [|i];
          [intros [= <-]; eexists; split;
           [vm_compute; reflexivity|split; Qle_compute]|]);
    intros [=] ].

(** C8: for each of the four platforms, TikTok, Twitter/X, YouTube and
    Instagram, the weights of its rubric sum to 1.0 within the tolerance
    of a float comparison, as exact values and in float arithmetic, and
    each weight lies in [0, 1]. *)
Theorem rubric_weights_sum_to_one :
  PLATFORMS = ["TikTok"; "Twitter/X"; "YouTube"; "Instagram"]
  /\ forall platform : str, platform ∈ PLATFORMS ->
       exists r, getitem PLATFORM_RULES platform = Ok r /\ sound_weights r.
Proof.
  split; [reflexivity|]. intros platform Hin. unfold PLATFORMS in Hin.
  rewrite !elem_of_cons, elem_of_nil in Hin.
  destruct Hin as [->|[->|[->|[->|[]]]]].
  - exists TikTok_rules. split; [reflexivity|]. sound_weights_compute.
  - exists Twitter_rules. split; [reflexivity|]. sound_weights_compute.
  - exists YouTube_rules. split; [reflexivity|]. sound_weights_compute.
  - exists Instagram_rules. split; [reflexivity|]. sound_weights_compute.
Qed.

Lemma rubric_weights_sum_to_one_witness :
  exists r, getitem PLATFORM_RULES "Instagram" = Ok r /\ sound_weights r.
Proof.
  apply (proj2 rubric_weights_sum_to_one "Instagram").
  unfold PLATFORMS. rewrite !elem_of_cons. auto.
Defined.

(** * The round loop *)

Lemma get_agent_response_run env a m w r :
  respond env (chats (log w)) a m = Ok r ->
  get_agent_response env a m w
  = Ok (r, {| store := store w; log := log w ++ [Chat a m r] |}).
Proof. unfold get_agent_response, chats. by intros ->. Qed.

Lemma on_store_extract text w d :
  scores_of text = Ok d ->
  on_store (extract_scores text) w
  = Ok (length (store w), {| store := store w ++ [d]; log := log w |}).
Proof.
  rewrite scores_of_score_set. intros H. unfold on_store.
  by rewrite extract_scores_run, H.
Qed.

Section Rounds.
Variable env : Env.
Variable su : setup.
Variable hint : str.
Hypothesis responds : forall n a m, exists r, respond env n a m = Ok r.
Hypothesis extracts :
  forall n m r, respond env n Algorithm m = Ok r ->
                exists d, scores_of r = Ok d.

(** One pass: a full cycle is appended to the log, the scores of its
    evaluation are stored, and the player is asked unless this was the
    last round. *)
Lemma round_body_run st w :
  exists c a u d l,
    cycle a l /\ scores_of a = Ok d /\
    let st' := {| iteration := iteration st + 1;
                  creator_response := c; algorithm_response := a;
                  audience_response := u;
                  scores := length (store w) |} in
    let choice := answer env (asks (log w)) in
    round_body env su hint st w
    = if iteration st + 1 <? MAX_ITERATIONS
      then Ok ((st', str_eqb choice "2"),
               {| store := store w ++ [d];
                  log := log w ++ l ++ [Asked choice] |})
      else Ok ((st', false),
               {| store := store w ++ [d]; log := log w ++ l |}).
Proof.
  unfold round_body.
  set (p1 := if iteration st + 1 =? 1 then _ else _).
  assert (exists m1 c, p1 w = Ok (c, {| store := store w;
                              log := log w ++ [Chat Creator m1 c] |}))
    as (m1 & c & Hp1).
  { unfold p1. destruct (iteration st + 1 =? 1).
    - destruct (responds (chats (log w)) Creator (creator_prompt su hint)) as [c Hc].
      eexists _, c. by apply get_agent_response_run.
    - match goal with |- context [get_agent_response env Creator ?m] =>
        destruct (responds (chats (log w)) Creator m) as [c Hc];
        exists m, c; by apply get_agent_response_run end. }
  rewrite bind_run, Hp1. clear Hp1 p1.
  set (w1 := {| store := store w; log := log w ++ [Chat Creator m1 c] |}).
  match goal with |- context [get_agent_response env Algorithm ?m] =>
    set (m2 := m); destruct (responds (chats (log w1)) Algorithm m2) as [a Ha] end.
  rewrite bind_run, (get_agent_response_run _ _ _ _ _ Ha).
  set (w2 := {| store := store w1; log := log w1 ++ [Chat Algorithm m2 a] |}).
  match goal with |- context [get_agent_response env Audience ?m] =>
    set (m3 := m); destruct (responds (chats (log w2)) Audience m3) as [u Hu] end.
  rewrite bind_run, (get_agent_response_run _ _ _ _ _ Hu).
  destruct (extracts _ _ _ Ha) as [d Hd].
  rewrite bind_run, (on_store_extract _ _ _ Hd).
  exists c, a, u, d, [Chat Creator m1 c; Chat Algorithm m2 a; Chat Audience m3 u].
  split; [by exists m1, c, m2, m3, u|]. split; [done|].
  cbv zeta. cbn [store log w1 w2].
  destruct (iteration st + 1 <? MAX_ITERATIONS).
  - rewrite bind_run. unfold Prompt_ask. cbn [store log].
    assert (asks (((log w ++ [Chat Creator m1 c]) ++ [Chat Algorithm m2 a])
                   ++ [Chat Audience m3 u]) = asks (log w)) as Hasks.
    { unfold asks. rewrite !filter_app, !length_app. simpl. lia. }
    fold (asks (((log w ++ [Chat Creator m1 c]) ++ [Chat Algorithm m2 a])
                   ++ [Chat Audience m3 u])).
    rewrite Hasks. rewrite <- !app_assoc. simpl.
    by destruct (str_eqb (answer env (asks (log w))) "2").
  - rewrite <- !app_assoc. done.
Qed.
End Rounds.




Section Loop.
Variable env : Env.
Variable su : setup.
Variable hint : str.

Lemma while_loop_step fuel st w :
  iteration st < MAX_ITERATIONS ->
  while_loop env su hint (S fuel) st w
  = match round_body env su hint st w with
    | Ok ((st', broke), w') =>
        if broke then Ok (st', w') else while_loop env su hint fuel st' w'
    | Raise e => Raise e
    end.
Proof.
  intros H. cbn [while_loop].
  destruct (Z.ltb_spec (iteration st) MAX_ITERATIONS); [|lia].
  rewrite bind_run. destruct (round_body env su hint st w) as [[[st' b] w']|]; [|done].
  by destruct b.
Qed.

Lemma while_loop_done fuel st w :
  MAX_ITERATIONS <= iteration st ->
  while_loop env su hint fuel st w = Ok (st, w).
Proof.
  intros H. destruct fuel; cbn [while_loop];
    by destruct (Z.ltb_spec (iteration st) MAX_ITERATIONS); [lia|].
Qed.

(** The fuel never runs out: once [iteration] is not negative, more
    than [MAX_ITERATIONS] passes change nothing. *)
Lemma while_loop_fuel fuel st w :
  0 <= iteration st ->
  (Z.to_nat (MAX_ITERATIONS - iteration st) <= fuel)%nat ->
  while_loop env su hint fuel st w
  = while_loop env su hint (Z.to_nat (MAX_ITERATIONS - iteration st)) st w.
Proof.
  revert st w. induction fuel as [|fuel IH]; intros st w H0 Hf.
  - by replace (Z.to_nat (MAX_ITERATIONS - iteration st)) with 0%nat by lia.
  - destruct (Z.ltb_spec (iteration st) MAX_ITERATIONS) as [Hlt|Hge].
    + destruct (Z.to_nat (MAX_ITERATIONS - iteration st)) as [|n] eqn:En; [lia|].
      rewrite !while_loop_step by done.
      destruct (round_body env su hint st w) as [[[st' b] w']|] eqn:Er; [|done].
      destruct b; [done|].
      assert (iteration st' = iteration st + 1) as Hit.
      { unfold round_body in Er. rewrite !bind_run in Er.
        repeat match type of Er with
               | match ?c with _ => _ end = _ =>
                   destruct c as [[? ?]|]; [|done]; try rewrite !bind_run in Er
               end.
        destruct (_ <? _) in Er.
        - rewrite bind_run in Er. cbn in Er.
          destruct (str_eqb _ _) in Er; by inversion Er.
        - by inversion Er. }
      rewrite IH by lia.
      replace n with (Z.to_nat (MAX_ITERATIONS - iteration st')) by lia.
      done.
    + rewrite !while_loop_done by lia. done.
Qed.
End Loop.



(** * Numbers that do not overflow *)

Lemma div_rne_le a b : div_rne a b <= a / b + 1.
Proof.
  unfold div_rne. destruct (2 * (a mod b) ?= b); [|lia|lia].
  destruct (Z.even (a / b)); lia.
Qed.

Lemma binade_lower n d :
  0 < n -> 0 < d ->
  2 ^ 52 * (scale2 n d (binade n d)).2 <= (scale2 n d (binade n d)).1.
Proof.
  intros Hn Hd. unfold binade.
  pose proof (Z.log2_spec n Hn) as [HnL HnU].
  pose proof (Z.log2_spec d Hd) as [HdL HdU].
  pose proof (Z.log2_nonneg n) as HL. pose proof (Z.log2_nonneg d) as HD.
  set (L := Z.log2 n) in *. set (D := Z.log2 d) in *.
  set (e1 := L - D - 52).
  destruct (scale2 n d e1) as [a1 b1] eqn:E1.
  assert (Hb1 : 0 < b1).
  { unfold scale2 in E1. destruct (0 <=? e1) eqn:Ee; injection E1 as <- <-; [|done].
    apply Z.leb_le in Ee. apply Z.mul_pos_pos; [done|]. by apply Z.pow_pos_nonneg. }
  destruct (Z.ltb_spec (a1 / b1) (2 ^ 52)) as [Hlt|Hge].
  - unfold scale2. destruct (Z.leb_spec 0 (e1 - 1)) as [He|He]; cbn [fst snd].
    + (* 2^52 * d * 2^(e1-1) <= 2^L <= n *)
      assert (2 ^ 52 * (d * 2 ^ (e1 - 1)) <= 2 ^ L); [|lia].
      assert (Hpow : 2 ^ L = 2 ^ 52 * (2 ^ (Z.succ D) * 2 ^ (e1 - 1))).
      { rewrite <- !Z.pow_add_r by lia. f_equal. unfold e1. lia. }
      rewrite Hpow. apply Z.mul_le_mono_nonneg_l; [lia|].
      apply Z.mul_le_mono_nonneg_r; [|lia]. apply Z.pow_nonneg. lia.
    + (* 2^52 * d <= 2^L * 2^(1-e1) <= n * 2^(1-e1) *)
      replace (- (e1 - 1)) with (1 - e1) by lia.
      assert (2 ^ 52 * d <= 2 ^ L * 2 ^ (1 - e1)).
      { assert (Hpow : 2 ^ L * 2 ^ (1 - e1) = 2 ^ 52 * 2 ^ (Z.succ D)).
        { rewrite <- !Z.pow_add_r by lia. f_equal. unfold e1. lia. }
        rewrite Hpow. apply Z.mul_le_mono_nonneg_l; lia. }
      assert (2 ^ L * 2 ^ (1 - e1) <= n * 2 ^ (1 - e1)); [|lia].
      apply Z.mul_le_mono_nonneg_r; [|lia]. apply Z.pow_nonneg. lia.
  - rewrite E1. cbn [fst snd].
    transitivity (b1 * (a1 / b1)).
    + rewrite Z.mul_comm. apply Z.mul_le_mono_nonneg_l; lia.
    + apply Z.mul_div_le. lia.
Qed.

Lemma pow2_1024_gt : 10 ^ 308 < 2 ^ 1024.
Proof. by vm_compute. Qed.

Lemma pow2_971_bound : (10 ^ 308) / 2 ^ 971 + 1 < 2 ^ 53.
Proof. by vm_compute. Qed.

(** A rational below [10^308] rounds to a finite float. *)
Lemma binary64_finite n d :
  0 <= n -> 0 < d -> n < 10 ^ 308 * d ->
  exists m e, binary64 n d = Finite m e.
Proof.
  intros Hn Hd Hlt. unfold binary64.
  destruct (Z.eqb_spec n 0); [by eexists _, _|].
  assert (Hn' : 0 < n) by lia.
  pose proof (binade_lower n d Hn' Hd) as Hlow.
  set (e := Z.max (-1074) (binade n d)).
  destruct (Z.ltb_spec e 971) as [He|He].
  { destruct (scale2 n d e) as [a b].
    destruct (Z.ltb_spec 971 e); [lia|]. destruct (Z.eqb_spec e 971); [lia|].
    by eexists _, _. }
  assert (Hbin : binade n d = e) by lia. rewrite Hbin in Hlow.
  unfold scale2 in *. destruct (Z.leb_spec 0 e); [|lia]. cbn [fst snd] in Hlow.
  assert (Hpe : 2 ^ 971 <= 2 ^ e) by (apply Z.pow_le_mono_r; lia).
  (* 2^52 * 2^e * d <= n < 10^308 * d *)
  assert (Hbound : 2 ^ 52 * 2 ^ e < 10 ^ 308) by nia.
  destruct (Z.ltb_spec 971 e) as [Hgt|Hle].
  { exfalso. assert (2 ^ 972 <= 2 ^ e) by (apply Z.pow_le_mono_r; lia).
    pose proof pow2_1024_gt.
    assert (2 ^ 1024 = 2 ^ 52 * 2 ^ 972) by (by vm_compute). nia. }
  assert (e = 971) as -> by lia. rewrite Z.eqb_refl. cbn [orb andb].
  pose proof (div_rne_le n (d * 2 ^ 971)) as Hm.
  assert (Hq : n / (d * 2 ^ 971) <= 10 ^ 308 / 2 ^ 971).
  { rewrite <- Z.div_div by lia.
    apply Z.div_le_mono; [lia|]. apply Z.div_le_upper_bound; lia. }
  pose proof pow2_971_bound.
  destruct (Z.eqb_spec (div_rne n (d * 2 ^ 971)) (2 ^ 53)); [lia|].
  by eexists _, _.
Qed.

(** * Runs of digits *)

Lemma longest_run_ge s run : (run <= longest_run run s)%nat.
Proof.
  revert run. induction s as [|c s IH]; intros run; simpl; [done|].
  destruct (is_digit c); [specialize (IH (S run))|]; lia.
Qed.

Lemma longest_run_mono s r1 r2 :
  (r1 <= r2)%nat -> (longest_run r1 s <= longest_run r2 s)%nat.
Proof.
  revert r1 r2. induction s as [|c s IH]; intros r1 r2 H; simpl; [done|].
  destruct (is_digit c); [apply IH|]; lia.
Qed.

Lemma longest_run_suffix a s run :
  (longest_run 0 s <= longest_run run (a ++ s))%nat.
Proof.
  revert run. induction a as [|c a IH]; intros run; simpl.
  - apply longest_run_mono. lia.
  - destruct (is_digit c); [apply IH|]. specialize (IH 0%nat). lia.
Qed.

Lemma longest_run_prefix p q run :
  (longest_run run p <= longest_run run (p ++ q))%nat.
Proof.
  revert run. induction p as [|c p IH]; intros run; simpl.
  - apply longest_run_ge.
  - destruct (is_digit c); [apply IH|]. specialize (IH 0%nat). lia.
Qed.

Lemma longest_run_span s run :
  (run + length (span is_digit s).1 <= longest_run run s)%nat.
Proof.
  revert run. induction s as [|c s IH]; intros run; simpl; [lia|].
  destruct (is_digit c).
  - specialize (IH (S run)). destruct (span is_digit s); simpl in *. lia.
  - simpl. lia.
Qed.

(** A run of digits inside a part of the text is a run of the text. *)
Lemma digit_run_sub a x c :
  (length (span is_digit x).1 <= longest_digit_run (a ++ x ++ c))%nat.
Proof.
  unfold longest_digit_run.
  pose proof (longest_run_span x 0). pose proof (longest_run_prefix x c 0).
  pose proof (longest_run_suffix a (x ++ c) 0). lia.
Qed.

(** * Tokens *)

Lemma digits_value_bound acc s :
  0 <= acc -> forallb is_digit s = true ->
  0 <= digits_value acc s < (acc + 1) * 10 ^ Z.of_nat (length s).
Proof.
  revert acc. induction s as [|c s IH]; intros acc Ha; simpl length.
  - intros _. simpl. lia.
  - intros [Hc Hs]%andb_prop. cbn [digits_value].
    unfold is_digit in Hc. apply andb_prop in Hc as [H1 H2].
    apply Z.leb_le in H1, H2.
    destruct (IH (10 * acc + (ord c - 48)) ltac:(lia) Hs) as [Hlo Hhi].
    split; [done|]. rewrite Nat2Z.inj_succ, Z.pow_succ_r by lia.
    assert (0 < 10 ^ Z.of_nat (length s)) by (apply Z.pow_pos_nonneg; lia).
    nia.
Qed.

Lemma digits_value_app acc a b :
  digits_value acc (a ++ b) = digits_value (digits_value acc a) b.
Proof. revert acc. induction a as [|c a IH]; intros acc; simpl; [done|apply IH]. Qed.

Lemma span_app_all p a b :
  forallb p a = true -> span p (a ++ b) = (a ++ (span p b).1, (span p b).2).
Proof.
  induction a as [|c a IH]; simpl.
  - by destruct (span p b).
  - intros [-> H]%andb_prop. by rewrite (IH H).
Qed.

(** The shape of the number at the head of a text: its integer part is
    the run of digits there, and a fraction is a full stop and a run of
    digits. *)
Lemma number_at_shape s tok rest :
  number_at s = Some (tok, rest) ->
  let ip := (span is_digit s).1 in
  ip <> [] /\ forallb is_digit ip = true /\
  (tok = ip \/ exists fp, fp <> [] /\ forallb is_digit fp = true
                          /\ tok = ip ++ "."%char :: fp).
Proof.
  unfold number_at. pose proof (span_fst_all is_digit s) as Hip.
  destruct (span is_digit s) as [ip r]; cbn [fst] in *.
  destruct ip as [|x ip]; [done|].
  destruct r as [|c r]; [intros [= <- <-]; auto|].
  destruct (ascii_eqb "."%char c) eqn:Ec; [|intros [= <- <-]; auto].
  apply ascii_eqb_eq in Ec. subst c.
  pose proof (span_fst_all is_digit r) as Hfp.
  destruct (span is_digit r) as [fp r']; cbn [fst] in *.
  destruct fp as [|f fp]; [intros [= <- <-]; auto|].
  intros [= <- <-]. split; [done|]. split; [done|]. right.
  exists (f :: fp). done.
Qed.

Lemma pow10_mono a b : (a <= b)%nat -> 10 ^ Z.of_nat a <= 10 ^ Z.of_nat b.
Proof. intros H. apply Z.pow_le_mono_r; lia. Qed.

(** A number whose integer part has at most 308 digits is converted and
    rounded without an exception. *)
Lemma round_float_number s tok rest :
  number_at s = Some (tok, rest) ->
  (length (span is_digit s).1 <= 308)%nat ->
  exists x, round_float tok = Ok x.
Proof.
  intros (Hne & Hip & Htok)%number_at_shape Hlen.
  set (ip := (span is_digit s).1) in *.
  assert (Hp10 : 10 ^ Z.of_nat (length ip) <= 10 ^ 308)
    by (apply (pow10_mono _ 308); lia).
  pose proof (digits_value_bound 0 ip ltac:(lia) Hip) as Hv.
  assert (exists n d, parse_decimal tok = Some (n, d) /\ 0 <= n /\ 0 < d
                      /\ n < 10 ^ 308 * d) as (n & d & Hp & Hn & Hd & Hlt).
  { unfold parse_decimal. destruct Htok as [->|(fp & Hfne & Hfp & ->)].
    - rewrite (span_all _ _ Hip). destruct ip as [|x ip']; [done|].
      eexists _, 1. split; [reflexivity|].
      clear Hlen. set (P := 10 ^ Z.of_nat _) in *. set (B := 10 ^ 308) in *.
      clearbody P B. lia.
    - rewrite (span_app_all _ _ _ Hip), span_cons_false by done.
      rewrite app_nil_r. cbn [fst snd]. destruct ip as [|x ip']; [done|].
      rewrite ascii_eqb_refl, Hfp.
      destruct fp as [|f fp']; [done|].
      change (true && negb (length (f :: fp') =? 0)%nat && true) with true.
      cbv iota.
      eexists _, _. split; [reflexivity|].
      rewrite digits_value_app.
      pose proof (digits_value_bound (digits_value 0 (x :: ip')) (f :: fp')
                    ltac:(lia) Hfp) as Hb.
      assert (0 < 10 ^ Z.of_nat (length (f :: fp')))
        by (apply Z.pow_pos_nonneg; lia).
      clear Hlen. set (P := 10 ^ Z.of_nat (length (x :: ip'))) in *.
      set (F := 10 ^ Z.of_nat (length (f :: fp'))) in *.
      set (B := 10 ^ 308) in *. clearbody P F B.
      split; [lia|]. split; [lia|]. nia. }
  destruct (binary64_finite n d Hn Hd Hlt) as (m & e & Hb).
  unfold round_float, py_float. rewrite Hp. cbn. rewrite Hb.
  unfold py_round. destruct (0 <=? e); by eexists.
Qed.

(** * Where the tokens come from *)

Lemma comes_from_sub tok x a c :
  comes_from tok x -> comes_from tok (a ++ x ++ c).
Proof.
  intros (a' & x' & c' & rest & -> & H).
  exists (a ++ a'), x', (c' ++ c), rest. split; [|done].
  by rewrite <- !app_assoc.
Qed.

Lemma comes_from_suffix tok s' s :
  s' `suffix_of` s -> comes_from tok s' -> comes_from tok s.
Proof.
  intros [p ->] H. rewrite <- (app_nil_r s'). by apply comes_from_sub.
Qed.

Lemma number_at_comes_from s tok rest :
  number_at s = Some (tok, rest) -> comes_from tok s.
Proof. intros H. exists [], s, [], rest. by rewrite app_nil_r. Qed.

Lemma first_number_comes_from s tok :
  first_number s = Some tok -> comes_from tok s.
Proof.
  unfold first_number. intros (s' & Hs & H)%leftmost_Some.
  destruct (number_at s') as [[t rest]|] eqn:E; [|done].
  injection H as ->. eapply comes_from_suffix; [done|].
  by eapply number_at_comes_from.
Qed.

Lemma label_at_suffix w1 w2 s r : label_at w1 w2 s = Some r -> r `suffix_of` s.
Proof. intros (p & -> & _)%label_at_app. by apply suffix_app_r. Qed.

Lemma labelled_number_comes_from w1 w2 s tok :
  labelled_number w1 w2 s = Some tok -> comes_from tok s.
Proof.
  unfold labelled_number, first_label.
  destruct (leftmost (label_at w1 w2) s) as [r|] eqn:E; [|done].
  cbn [mbind option_bind]. intros H%first_number_comes_from.
  apply leftmost_Some in E as (s' & Hs & Hl%label_at_suffix).
  eapply comes_from_suffix; [|done]. by etrans.
Qed.

Lemma numbers_fuel_comes_from n s tok :
  tok ∈ numbers_fuel n s -> comes_from tok s.
Proof.
  revert s. induction n as [|n IH]; intros s; simpl; [by intros ?%elem_of_nil|].
  destruct (number_at s) as [[t rest]|] eqn:E.
  - intros [->|Hin]%elem_of_cons; [by eapply number_at_comes_from|].
    apply number_at_app in E as [-> _].
    eapply comes_from_suffix; [by apply suffix_app_r|by apply IH].
  - destruct s as [|c s]; [by intros ?%elem_of_nil|].
    intros Hin. eapply comes_from_suffix; [by apply suffix_cons_r|by apply IH].
Qed.

Lemma last_elem_of {A} (l : list A) x : last l = Some x -> x ∈ l.
Proof.
  rewrite last_Some. intros [l' ->]. apply elem_of_app. right. by left.
Qed.

Lemma weighted_token_comes_from L tok :
  weighted_token L = Some tok -> comes_from tok L.
Proof.
  unfold weighted_token.
  destruct (leftmost slash100_at L) as [t|] eqn:E.
  - intros [= ->]. apply leftmost_Some in E as (s' & Hs & H).
    unfold slash100_at in H.
    destruct (number_at s') as [[t rest]|] eqn:En; [|done].
    cbn [mbind option_bind] in H.
    destruct (skip_spaces rest) as [|c r]; [done|].
    destruct (_ && _); [|done]. injection H as ->.
    eapply comes_from_suffix; [done|]. by eapply number_at_comes_from.
  - destruct (after_last "=" L) as [r|] eqn:Er.
    + intros H%last_elem_of. unfold numbers in H.
      apply numbers_fuel_comes_from in H.
      eapply comes_from_suffix; [by eapply after_last_suffix|done].
    + apply first_number_comes_from.
Qed.

Lemma wt_line_at_sub s L :
  wt_line_at s = Some L -> exists c, s = L ++ c.
Proof.
  unfold wt_line_at. destruct (label_at "Weighted" "Total" s) as [r|] eqn:E; [|done].
  cbn [mbind option_bind]. apply label_at_app in E as (p & -> & _).
  pose proof (line_of_app r) as Hr.
  destruct (line_of r) as [|x l]; [done|]. intros [= <-].
  rewrite take_prefix. eexists. rewrite Hr at 1. by rewrite <- app_assoc.
Qed.

Lemma field_token_comes_from key clean tok :
  field_token key clean = Some tok -> comes_from tok clean.
Proof.
  unfold field_token.
  destruct (str_eqb key "reach"); [apply labelled_number_comes_from|].
  destruct (str_eqb key "engagement"); [apply labelled_number_comes_from|].
  destruct (str_eqb key "virality"); [apply labelled_number_comes_from|].
  destruct (str_eqb key "weighted_total"); [|done].
  destruct (leftmost wt_line_at clean) as [L|] eqn:E; [|done].
  cbn [mbind option_bind]. intros H%weighted_token_comes_from.
  apply leftmost_Some in E as (s' & [p ->] & [c ->]%wt_line_at_sub).
  by apply comes_from_sub.
Qed.

Lemma comes_from_round tok s :
  comes_from tok s -> (longest_digit_run s <= 308)%nat ->
  exists x, round_float tok = Ok x.
Proof.
  intros (a & x & c & rest & -> & H) Hrun.
  eapply round_float_number; [done|].
  pose proof (digit_run_sub a x c). lia.
Qed.

(** The extractor returns on every text that, stripped of "**", has no
    run of more than 308 digits. *)
Lemma extract_scores_returns text :
  (longest_digit_run (replace "**" "" text) <= 308)%nat ->
  exists d, scores_of text = Ok d.
Proof.
  intros Hrun. rewrite scores_of_score_set. unfold score_set. cbv zeta.
  set (clean := replace "**" "" text) in *.
  assert (Hfield : forall key, exists v, field_value (field_token key clean) = Ok v).
  { intros key. destruct (field_token key clean) as [tok|] eqn:E; [|by eexists].
    apply field_token_comes_from in E.
    destruct (comes_from_round _ _ E Hrun) as [x Hx].
    cbn. unfold clamp_round. rewrite Hx. by eexists. }
  destruct (Hfield "reach") as [r Hr].
  destruct (Hfield "engagement") as [e He].
  destruct (Hfield "virality") as [v Hv].
  destruct (Hfield "weighted_total") as [w Hw].
  change (field_token "reach" clean)
    with (labelled_number "Reach" "Score" clean) in Hr.
  change (field_token "engagement" clean)
    with (labelled_number "Engagement" "Score" clean) in He.
  change (field_token "virality" clean)
    with (labelled_number "Virality" "Score" clean) in Hv.
  change (field_token "weighted_total" clean)
    with (leftmost wt_line_at clean ≫= weighted_token) in Hw.
  rewrite Hr, He, Hv, Hw. by eexists.
Qed.

(** * The trend fetcher: what it returns *)

Lemma map_fmap {A B} (f : A -> B) (l : list A) : map f l = f <$> l.
Proof. induction l as [|x l IH]; simpl; [done|by rewrite IH]. Qed.

Lemma str_in_elem (x : str) (l : list str) : str_in x l = true <-> x ∈ l.
Proof.
  unfold str_in. induction l as [|y l IH]; simpl.
  - split; [done|by intros ?%elem_of_nil].
  - rewrite orb_true_iff, IH, elem_of_cons, str_eqb_eq. done.
Qed.

Lemma str_in_not_elem (x : str) (l : list str) :
  negb (str_in x l) = true <-> x ∉ l.
Proof.
  rewrite negb_true_iff, <- not_true_iff_false. by rewrite str_in_elem.
Qed.

Lemma slice_to_sublist {A} (j : Z) (l : list A) : sublist (slice_to j l) l.
Proof. unfold slice_to. destruct (j <? 0); apply sublist_take. Qed.

Lemma slice_to_length {A} (j : Z) (l : list A) :
  0 <= j -> length (slice_to j l) = Nat.min (Z.to_nat j) (length l).
Proof. intros H. rewrite slice_to_nonneg by done. apply length_take. Qed.

Lemma padding_sublist g sample : sublist (padding g sample) sample.
Proof. apply sublist_filter. Qed.

Lemma padding_fresh g sample k : k ∈ padding g sample -> k ∉ g.
Proof.
  unfold padding. rewrite list_elem_of_filter. intros [H _].
  by apply str_in_not_elem.
Qed.

Lemma padded_covers g sample k : k ∈ sample -> k ∈ g ++ padding g sample.
Proof.
  intros Hk. rewrite elem_of_app. destruct (str_in k g) eqn:E.
  - left. by apply str_in_elem.
  - right. unfold padding. rewrite list_elem_of_filter. split; [|done].
    by rewrite E.
Qed.

Lemma padded_length g sample :
  NoDup sample -> (length sample <= length (g ++ padding g sample))%nat.
Proof.
  intros Hnd. apply submseteq_length, NoDup_submseteq; [done|].
  intros k. apply padded_covers.
Qed.

Lemma fetch_live_cases ts file count :
  fetch_live file (Ok ts) count
  = if (5 <=? Z.of_nat (length (tagged ts)))
    then Ok (slice_to count (tagged ts))
    else let g := tagged ts ++ keyword_matches (tagged ts) ts in
         if (5 <=? Z.of_nat (length g)) then Ok (slice_to count g)
         else match _load_sample_trends file with
              | Ok sample => Ok (slice_to count (g ++ padding g sample))
              | Raise e => Raise e
              end.
Proof.
  unfold fetch_live, tagged, keyword_matches, padding, games_tagged, keyword_hit.
  cbn [mbind Result_bind mret Result_ret]. cbv zeta.
  repeat destruct (5 <=? _); reflexivity.
Qed.

Lemma fetch_fallback file e count :
  fetch_gaming_trends file (Raise e) count
  = match _load_sample_trends file with
    | Ok sample => Ok (slice_to count sample)
    | Raise e' => Raise e'
    end.
Proof.
  unfold fetch_gaming_trends, fetch_live. cbn [mbind Result_bind].
  by destruct (_load_sample_trends file).
Qed.

Lemma fetch_live_ok file ts count :
  fetch_gaming_trends file (Ok ts) count = fetch_live file (Ok ts) count.
Proof.
  unfold fetch_gaming_trends. rewrite fetch_live_cases.
  destruct (5 <=? _); [done|]. cbv zeta. destruct (5 <=? _); [done|].
  by destruct (_load_sample_trends file).
Qed.

Lemma tagged_elem ts k :
  k ∈ tagged ts <-> (exists t, t ∈ ts /\ keyword t = k /\ games_tagged t = true).
Proof.
  unfold tagged. rewrite map_fmap, list_elem_of_fmap. split.
  - intros (t & -> & [Ht Hin]%list_elem_of_filter). by exists t.
  - intros (t & Hin & <- & Ht). exists t. split; [done|].
    by apply list_elem_of_filter.
Qed.

Lemma keyword_matches_elem g ts k :
  k ∈ keyword_matches g ts <->
  (exists t, t ∈ ts /\ keyword t = k /\ (k ∉ g) /\ keyword_hit t = true).
Proof.
  unfold keyword_matches. rewrite map_fmap, list_elem_of_fmap. split.
  - intros (t & -> & [Ht Hin]%list_elem_of_filter).
    apply andb_prop in Ht as [Hg Hk]. apply str_in_not_elem in Hg.
    by exists t.
  - intros (t & Hin & <- & Hg & Hk). exists t. split; [done|].
    apply list_elem_of_filter. split; [|done].
    apply andb_true_intro. split; [by apply str_in_not_elem|done].
Qed.

(** X1: for a count that is not negative the fetcher returns at most
    count topics; and when the sample list, whenever the file loads,
    holds at least five entries, all different, it returns at least five
    of them or count, whichever is less, whatever the live lookup does. *)
Theorem fetch_gaming_trends_length :
  forall (file : Result (list (str * list str)))
         (live : Result (list trend)) (count : Z) (l : list str),
    0 <= count ->
    fetch_gaming_trends file live count = Ok l ->
    (length l <= Z.to_nat count)%nat
    /\ ((forall sample, _load_sample_trends file = Ok sample ->
           NoDup sample /\ (5 <= length sample)%nat) ->
        (Nat.min 5 (Z.to_nat count) <= length l)%nat).
Proof.
  intros file live count l Hc.
  destruct live as [ts|e].
  - rewrite fetch_live_ok, fetch_live_cases.
    destruct (Z.leb_spec 5 (Z.of_nat (length (tagged ts)))).
    { intros [= <-]. rewrite slice_to_length by done. split; lia. }
    cbv zeta.
    destruct (Z.leb_spec 5 (Z.of_nat (length (tagged ts ++ keyword_matches (tagged ts) ts)))).
    { intros [= <-]. rewrite slice_to_length by done. split; lia. }
    destruct (_load_sample_trends file) as [sample|e]; [|done].
    intros [= <-]. rewrite slice_to_length by done. split; [lia|].
    intros Hs. destruct (Hs sample eq_refl) as [Hnd H5].
    pose proof (padded_length (tagged ts ++ keyword_matches (tagged ts) ts)
                  sample Hnd). lia.
  - rewrite fetch_fallback.
    destruct (_load_sample_trends file) as [sample|e']; [|done].
    intros [= <-]. rewrite slice_to_length by done. split; [lia|].
    intros Hs. destruct (Hs sample eq_refl) as [Hnd H5]. lia.
Qed.

Lemma fetch_gaming_trends_length_witness :
  (length (slice_to 10 five_samples) <= Z.to_nat 10)%nat
  /\ ((forall sample, _load_sample_trends five_samples_file = Ok sample ->
         NoDup sample /\ (5 <= length sample)%nat) ->
      (Nat.min 5 (Z.to_nat 10) <= length (slice_to 10 five_samples))%nat).
Proof.
  apply (fetch_gaming_trends_length five_samples_file
           (Raise (Exception "offline")) 10 (slice_to 10 five_samples)).
  - lia.
  - reflexivity.
Defined.

Lemma NoDup_slice_to {A} (j : Z) (l : list A) : NoDup l -> NoDup (slice_to j l).
Proof. intros H. eapply sublist_NoDup; [done|apply slice_to_sublist]. Qed.

Lemma tagged_NoDup ts : NoDup (map keyword ts) -> NoDup (tagged ts).
Proof.
  intros H. eapply sublist_NoDup; [exact H|].
  unfold tagged. rewrite !map_fmap. apply fmap_sublist, sublist_filter.
Qed.

Lemma keyword_matches_NoDup g ts :
  NoDup (map keyword ts) -> NoDup (keyword_matches g ts).
Proof.
  intros H. eapply sublist_NoDup; [exact H|].
  unfold keyword_matches. rewrite !map_fmap. apply fmap_sublist, sublist_filter.
Qed.

Lemma live_NoDup ts :
  NoDup (map keyword ts) ->
  NoDup (tagged ts ++ keyword_matches (tagged ts) ts).
Proof.
  intros H. apply NoDup_app. split; [by apply tagged_NoDup|]. split.
  - intros k Hk (t & _ & _ & Hg & _)%keyword_matches_elem. done.
  - by apply keyword_matches_NoDup.
Qed.

Lemma padded_NoDup g sample : NoDup g -> NoDup sample -> NoDup (g ++ padding g sample).
Proof.
  intros Hg Hs. apply NoDup_app. split; [done|]. split.
  - intros k Hk Hp. by apply padding_fresh in Hp.
  - eapply sublist_NoDup; [done|apply padding_sublist].
Qed.

(** X2: the fetcher repeats no topic, provided the sample list, whenever
    the file loads, repeats none and the live lookup, when it answers,
    reports no keyword twice: the keyword pass skips what the topic filter
    kept, and the padding skips what the live trends hold. *)
Theorem fetch_gaming_trends_distinct :
  forall (file : Result (list (str * list str)))
         (live : Result (list trend)) (count : Z) (l : list str),
    (forall sample, _load_sample_trends file = Ok sample -> NoDup sample) ->
    (forall ts, live = Ok ts -> NoDup (map keyword ts)) ->
    fetch_gaming_trends file live count = Ok l ->
    NoDup l.
Proof.
  intros file live count l Hs Hlive.
  destruct live as [ts|e].
  - specialize (Hlive ts eq_refl).
    rewrite fetch_live_ok, fetch_live_cases.
    destruct (5 <=? _).
    { intros [= <-]. by apply NoDup_slice_to, tagged_NoDup. }
    cbv zeta. destruct (5 <=? _).
    { intros [= <-]. by apply NoDup_slice_to, live_NoDup. }
    destruct (_load_sample_trends file) as [sample|e]; [|done].
    intros [= <-]. apply NoDup_slice_to.
    apply padded_NoDup; [by apply live_NoDup|by apply Hs].
  - rewrite fetch_fallback.
    destruct (_load_sample_trends file) as [sample|e']; [|done].
    intros [= <-]. by apply NoDup_slice_to, Hs.
Qed.

Lemma five_samples_NoDup : NoDup five_samples.
Proof. apply (bool_decide_unpack _). vm_compute. reflexivity. Qed.

Lemma fetch_gaming_trends_distinct_witness :
  NoDup (slice_to 3 (["Hades II"] ++ padding ["Hades II"] five_samples)).
Proof.
  apply (fetch_gaming_trends_distinct five_samples_file
           (Ok [ {| keyword := "Hades II"; topics := Some [6] |};
                 {| keyword := "Weather"; topics := None |} ]) 3).
  - intros sample [= <-]. exact five_samples_NoDup.
  - intros ts [= <-]. apply (bool_decide_unpack _). vm_compute. reflexivity.
  - vm_compute. reflexivity.
Defined.

(** X3: when the live lookup answers, the fetcher returns the first count
    entries of the live gaming trends G followed by the padding P.  G holds
    every trend tagged with the Games topic, and nothing but keywords of
    live trends that carry the tag or contain a gaming keyword; P is taken
    from the sample list in its order, holds nothing that G holds, and is
    empty as soon as G has five entries.  When the sample file does not
    load, the result is the first count entries of G if G has five
    entries, and the exception of the loader otherwise. *)
Theorem fetch_gaming_trends_sources :
  forall (file : Result (list (str * list str))) (ts : list trend)
         (count : Z),
    exists G : list str,
      (forall t : trend, t ∈ ts -> games_tagged t = true -> keyword t ∈ G)
      /\ (forall k : str, k ∈ G ->
            exists t, t ∈ ts /\ keyword t = k
                      /\ (games_tagged t = true \/ keyword_hit t = true))
      /\ (forall sample : list str,
            _load_sample_trends file = Ok sample ->
            exists P : list str,
              fetch_gaming_trends file (Ok ts) count
              = Ok (slice_to count (G ++ P))
              /\ sublist P sample
              /\ (forall k : str, k ∈ P -> k ∉ G)
              /\ ((5 <= length G)%nat -> P = []))
      /\ (forall e, _load_sample_trends file = Raise e ->
            fetch_gaming_trends file (Ok ts) count
            = if (5 <=? Z.of_nat (length G)) then Ok (slice_to count G)
              else Raise e).
Proof.
  intros file ts count. rewrite fetch_live_ok, fetch_live_cases.
  assert (Htag : forall G' : list str,
            (forall k : str, k ∈ tagged ts -> k ∈ G') ->
            forall t : trend, t ∈ ts -> games_tagged t = true ->
                              keyword t ∈ G').
  { intros G' HG t Hin Ht. apply HG, tagged_elem. by exists t. }
  destruct (Z.leb_spec 5 (Z.of_nat (length (tagged ts)))) as [H5|H5].
  { exists (tagged ts). split; [by apply Htag|]. split.
    { intros k (t & Hin & Hk & Ht)%tagged_elem. exists t. auto. }
    split.
    - intros sample _. exists []. rewrite app_nil_r.
      split; [done|]. split; [apply sublist_nil_l|].
      split; [by intros k ?%elem_of_nil|done].
    - intros e _. by destruct (Z.leb_spec 5 (Z.of_nat (length (tagged ts)))); [|lia]. }
  cbv zeta. set (g := tagged ts ++ keyword_matches (tagged ts) ts).
  assert (Hg : forall k : str, k ∈ g ->
            exists t, t ∈ ts /\ keyword t = k
                      /\ (games_tagged t = true \/ keyword_hit t = true)).
  { intros k [Hk|Hk]%elem_of_app.
    - apply tagged_elem in Hk as (t & Hin & Hk & Ht). exists t. auto.
    - apply keyword_matches_elem in Hk as (t & Hin & Hk & _ & Ht).
      exists t. auto. }
  assert (Hsub : forall k : str, k ∈ tagged ts -> k ∈ g).
  { intros k Hk. apply elem_of_app. by left. }
  exists g. split; [by apply Htag|]. split; [done|].
  destruct (Z.leb_spec 5 (Z.of_nat (length g))) as [Hg5|Hg5].
  { split.
    - intros sample _. exists []. rewrite app_nil_r.
      split; [done|]. split; [apply sublist_nil_l|].
      split; [by intros k ?%elem_of_nil|done].
    - done. }
  split.
  - intros sample ->. exists (padding g sample).
    split; [done|]. split; [apply padding_sublist|].
    split; [apply padding_fresh|lia].
  - by intros e ->.
Qed.

(** * The scorecard *)

(** X4: in the final scorecard the rating of the weighted total and the
    verdict agree at both ends: a weighted total rated VIRAL always gets
    the viral verdict and one rated FAIL always gets the FAIL verdict.
    In between they use different bands: from 80 to 84 the rating is
    Strong under the viral verdict, and from 30 to 39 the rating is Weak
    under the FAIL verdict. *)
Theorem rating_and_verdict :
  forall (topic platform persona_name : str)
         (reach engagement virality weighted_total iteration : Z),
    let card := display_scorecard topic platform persona_name
                  reach engagement virality weighted_total iteration in
    let viral :=
      "[bold green]YOUR CONTENT IS GOING VIRAL! The algorithm gods smile upon you.[/bold green]" in
    let fail :=
      "[bold red]FAIL. This is getting 12 views and 3 of them are your alt accounts.[/bold red]" in
    exists rating,
      last (table card)
      = Some ("[bold]Weighted Total[/bold]",
              "[bold]" ++ str_of_Z weighted_total ++ "/100[/bold]", rating)
      /\ (rating = "[bold green]VIRAL[/bold green]" -> verdict card = viral)
      /\ (rating = "[bold red]FAIL[/bold red]" -> verdict card = fail)
      /\ (80 <= weighted_total < 85 ->
          rating = "[green]Strong[/green]" /\ verdict card = viral)
      /\ (30 <= weighted_total < 40 ->
          rating = "[red]Weak[/red]" /\ verdict card = fail).
Proof.
  intros topic platform persona_name reach engagement virality w iteration.
  cbv zeta. exists (get_rating w). split; [reflexivity|].
  unfold get_rating, display_scorecard; cbn [verdict].
  destruct (Z.leb_spec 85 w), (Z.leb_spec 80 w), (Z.leb_spec 70 w),
    (Z.leb_spec 60 w), (Z.leb_spec 50 w), (Z.leb_spec 40 w),
    (Z.leb_spec 30 w); try lia;
    repeat split; try done; try (intros; lia).
Qed.

Lemma rating_and_verdict_witness :
  exists rating,
    last (table (display_scorecard "Elden Ring DLC" "TikTok" "CasualChloe"
                   72 64 58 82 1))
    = Some ("[bold]Weighted Total[/bold]", "[bold]82/100[/bold]", rating)
    /\ rating = "[green]Strong[/green]".
Proof.
  destruct (rating_and_verdict "Elden Ring DLC" "TikTok" "CasualChloe"
              72 64 58 82 1) as (rating & Hlast & _ & _ & H & _).
  exists rating. split; [exact Hlast|]. apply H. lia.
Defined.

(** * The menus *)

Lemma to_int_not_nil z :
  Z.to_int z <> Decimal.Pos Decimal.Nil /\ Z.to_int z <> Decimal.Neg Decimal.Nil.
Proof.
  split; intros H; pose proof (f_equal Z.of_int H) as H0;
    rewrite of_to in H0; subst z; discriminate H.
Qed.

Lemma str_of_Z_inj a b : str_of_Z a = str_of_Z b -> a = b.
Proof.
  unfold str_of_Z. intros H.
  apply (f_equal string_of_list_ascii) in H.
  rewrite !string_of_list_ascii_of_string in H.
  apply (f_equal NilZero.int_of_string) in H.
  destruct (to_int_not_nil a), (to_int_not_nil b).
  rewrite !NilZero.isi in H by done.
  injection H as H. by apply to_int_inj.
Qed.

Lemma choices_upto_elem n c :
  str_of_Z c ∈ choices_upto n <-> 1 <= c <= Z.of_nat n.
Proof.
  unfold choices_upto. rewrite map_fmap, list_elem_of_fmap. split.
  - intros (i & Hc & Hi). apply str_of_Z_inj in Hc as ->.
    apply elem_of_seq in Hi. lia.
  - intros Hc. exists (Z.to_nat c). split; [f_equal; lia|].
    apply elem_of_seq. lia.
Qed.

Lemma list_getitem_in_range {A} (l : list A) (i : Z) :
  0 <= i < Z.of_nat (length l) ->
  exists x, list_getitem l i = Ok x /\ l !! Z.to_nat i = Some x.
Proof.
  intros Hi. unfold list_getitem. cbv zeta.
  destruct (Z.ltb_spec i 0); [lia|].
  destruct (Z.leb_spec 0 i); [|lia].
  destruct (Z.ltb_spec i (Z.of_nat (length l))); [|lia]. cbn [andb].
  destruct (l !! Z.to_nat i) as [x|] eqn:E; [by exists x|].
  apply lookup_ge_None in E. lia.
Qed.

(** X5: whenever the prompt returns one of the choices it offers,
    [select_trend] returns the topic listed under that number: it raises
    no IndexError and never wraps around to the end of the list.  For an
    empty list of trends the prompt has no choice to return. *)
Theorem select_trend_listed :
  forall (ask : list str -> Z) (trends : list str),
    (offered ask (choices_upto (length trends)) ->
     let choice := ask (choices_upto (length trends)) in
     exists t, select_trend ask trends = Ok t
               /\ 1 <= choice <= Z.of_nat (length trends)
               /\ trends !! Z.to_nat (choice - 1) = Some t
               /\ t ∈ trends)
    /\ (trends = [] -> ~ offered ask (choices_upto (length trends))).
Proof.
  intros ask trends. split.
  - unfold offered. intros Hc%choices_upto_elem. cbv zeta.
    destruct (list_getitem_in_range trends
                (ask (choices_upto (length trends)) - 1)) as (t & Ht & Hl); [lia|].
    exists t. split; [exact Ht|]. split; [lia|]. split; [exact Hl|].
    by eapply list_elem_of_lookup_2.
  - intros ->. unfold offered. cbn. by intros ?%elem_of_nil.
Qed.

Lemma select_trend_listed_witness :
  exists t, select_trend (fun _ => 2) five_samples = Ok t
            /\ 1 <= 2 <= Z.of_nat (length five_samples)
            /\ five_samples !! Z.to_nat (2 - 1) = Some t
            /\ t ∈ five_samples.
Proof.
  apply (proj1 (select_trend_listed (fun _ => 2) five_samples)).
  unfold offered. apply choices_upto_elem. vm_compute. split; discriminate.
Defined.









(** * The reply of an agent *)

Lemma scan_history_app name h1 h2 :
  scan_history name (h1 ++ h2)
  = match scan_history name h1 with
    | Some r => Some r
    | None => scan_history name h2
    end.
Proof.
  induction h1 as [|m h1 IH]; simpl; [done|].
  by destruct (from_agent name m).
Qed.

Lemma scan_history_none name h :
  Forall (fun m => from_agent name m = false) h -> scan_history name h = None.
Proof.
  induction 1 as [|m h Hm _ IH]; simpl; [done|]. by rewrite Hm.
Qed.

Lemma agent_reply_scan name h :
  agent_reply name (Some h) = default NO_RESPONSE (scan_history name (reverse h)).
Proof. by destruct h. Qed.

(** X7: [get_agent_response] returns the content of the last message of
    the chat history that has the role assistant or the name of the agent
    (the empty string when that message has no content), whatever comes
    before it; when the history has no such message, or there is no
    history, it returns "No response generated.". *)
Theorem agent_reply_last_message :
  forall (name : str) (history : list message),
    (forall h1 msg h2,
       history = h1 ++ msg :: h2 ->
       from_agent name msg = true ->
       Forall (fun m => from_agent name m = false) h2 ->
       agent_reply name (Some history) = default "" (msg !! "content"))
    /\ (Forall (fun m => from_agent name m = false) history ->
        agent_reply name (Some history) = NO_RESPONSE)
    /\ agent_reply name None = NO_RESPONSE.
Proof.
  intros name history. split; [|split; [|done]].
  - intros h1 msg h2 -> Hmsg Hrest. rewrite agent_reply_scan.
    rewrite reverse_app, reverse_cons, <- app_assoc, scan_history_app.
    rewrite scan_history_none by (by apply Forall_reverse).
    simpl. by rewrite Hmsg.
  - intros H. rewrite agent_reply_scan.
    rewrite scan_history_none by (by apply Forall_reverse). done.
Qed.

Lemma agent_reply_last_message_witness :
  agent_reply "Content_Creator"
    (Some [ {[ "role" := "user"; "content" := "Create a TikTok post" ]};
            {[ "name" := "Content_Creator"; "content" := "HOOK: wait for it" ]} ])
  = "HOOK: wait for it".
Proof.
  etrans.
  - apply (proj1 (agent_reply_last_message "Content_Creator" _)
             [ {[ "role" := "user"; "content" := "Create a TikTok post" ]} ]
             {[ "name" := "Content_Creator"; "content" := "HOOK: wait for it" ]}
             []).
    + reflexivity.
    + vm_compute. reflexivity.
    + constructor.
  - vm_compute. reflexivity.
Defined.

(** * The rubric text *)

Lemma getitem_rules platform r :
  getitem PLATFORM_RULES platform = Ok r ->
  (platform = "TikTok" /\ r = TikTok_rules)
  \/ (platform = "Twitter/X" /\ r = Twitter_rules)
  \/ (platform = "YouTube" /\ r = YouTube_rules)
  \/ (platform = "Instagram" /\ r = Instagram_rules).
Proof.
  unfold PLATFORM_RULES. cbn [getitem].
  destruct (str_eqb "TikTok" platform) eqn:E1.
  { apply str_eqb_eq in E1 as <-. intros [= <-]. auto. }
  destruct (str_eqb "Twitter/X" platform) eqn:E2.
  { apply str_eqb_eq in E2 as <-. intros [= <-]. auto. }
  destruct (str_eqb "YouTube" platform) eqn:E3.
  { apply str_eqb_eq in E3 as <-. intros [= <-]. auto 6. }
  destruct (str_eqb "Instagram" platform) eqn:E4.
  { apply str_eqb_eq in E4 as <-. intros [= <-]. auto 6. }
  done.
Qed.

(** X8: the rubric text lists every criterion of the platform once, in
    the order of the table, each with a whole percentage.  Cutting
    weight * 100 down to an integer loses nothing: each percentage, read
    back as a fraction of 100, is the weight itself, and the percentages
    of a platform add up to 100. *)
Theorem rubric_percentages :
  forall (platform : str) (r : rules),
    getitem PLATFORM_RULES platform = Ok r ->
    exists pcts : list Z,
      build_scoring_rubric platform
      = Ok (join nl
              ([ "Platform: " ++ platform;
                 "Description: " ++ description r;
                 "";
                 "Scoring Criteria (use these exact weights):" ]
               ++ zip_with (fun c pct => rubric_line c.1 pct c.2)
                    (criteria r) pcts))
      /\ length pcts = length (criteria r)
      /\ Forall2 (fun c pct => weight c.2 = binary64 pct 100)
           (criteria r) pcts
      /\ foldr Z.add 0 pcts = 100.
Proof.
  intros platform r [[-> ->]|[[-> ->]|[[-> ->]|[-> ->]]]]%getitem_rules.
  - exists [30; 25; 20; 15; 10]. split; [vm_compute; reflexivity|].
    split; [reflexivity|]. split; [|reflexivity].
    repeat constructor; vm_compute; reflexivity.
  - exists [30; 25; 20; 15; 10]. split; [vm_compute; reflexivity|].
    split; [reflexivity|]. split; [|reflexivity].
    repeat constructor; vm_compute; reflexivity.
  - exists [25; 25; 20; 15; 15]. split; [vm_compute; reflexivity|].
    split; [reflexivity|]. split; [|reflexivity].
    repeat constructor; vm_compute; reflexivity.
  - exists [30; 20; 20; 15; 15]. split; [vm_compute; reflexivity|].
    split; [reflexivity|]. split; [|reflexivity].
    repeat constructor; vm_compute; reflexivity.
Qed.

Lemma rubric_percentages_witness :
  exists pcts : list Z,
    build_scoring_rubric "YouTube"
    = Ok (join nl
            ([ "Platform: " ++ "YouTube";
               "Description: " ++ description YouTube_rules;
               "";
               "Scoring Criteria (use these exact weights):" ]
             ++ zip_with (fun c pct => rubric_line c.1 pct c.2)
                  (criteria YouTube_rules) pcts))
    /\ length pcts = length (criteria YouTube_rules)
    /\ Forall2 (fun c pct => weight c.2 = binary64 pct 100)
         (criteria YouTube_rules) pcts
    /\ foldr Z.add 0 pcts = 100.
Proof. exact (rubric_percentages "YouTube" YouTube_rules eq_refl). Defined.

(** * The score extractor: its result and its failures *)

(** X9: a call that returns hands back a dict with the four keys reach,
    engagement, virality and weighted_total and no other, each holding an
    integer from 0 to 100. *)
Theorem extract_scores_four_fields :
  forall (text : str) (d : gmap str Z),
    scores_of text = Ok d ->
    dom d = {[ "reach"; "engagement"; "virality"; "weighted_total" ]}
    /\ forall key : str, key ∈ field_keys ->
         exists v, d !! key = Some v /\ 0 <= v <= 100.
Proof.
  intros text d Hd. split; [by eapply extract_scores_range|].
  intros key Hkey.
  destruct (scores_of_field _ _ _ Hd Hkey) as (v & Hv & Hk).
  exists v. split; [done|]. by eapply field_value_range.
Qed.

Lemma extract_scores_four_fields_witness :
  exists d : gmap str Z,
    scores_of "Reach Score: 650 and Virality Score: 0.4" = Ok d
    /\ dom d = {[ "reach"; "engagement"; "virality"; "weighted_total" ]}
    /\ forall key : str, key ∈ field_keys ->
         exists v, d !! key = Some v /\ 0 <= v <= 100.
Proof.
  assert (H : reads "Reach Score: 650 and Virality Score: 0.4" "reach" 100)
    by run_extractor.
  destruct H as (d & Hd & _). exists d. split; [exact Hd|].
  exact (extract_scores_four_fields _ d Hd).
Defined.

Lemma number_at_parses s tok rest :
  number_at s = Some (tok, rest) ->
  exists n d, parse_decimal tok = Some (n, d).
Proof.
  intros (Hne & Hip & Htok)%number_at_shape.
  set (ip := (span is_digit s).1) in *.
  unfold parse_decimal. destruct Htok as [->|(fp & Hfne & Hfp & ->)].
  - rewrite (span_all _ _ Hip). destruct ip as [|x ip']; [done|]. by eexists _, _.
  - rewrite (span_app_all _ _ _ Hip), span_cons_false by done.
    rewrite app_nil_r. cbn [fst snd]. destruct ip as [|x ip']; [done|].
    rewrite ascii_eqb_refl, Hfp.
    destruct fp as [|f fp']; [done|]. by eexists _, _.
Qed.

Lemma py_round_raises x e : py_round x = Raise e -> e = OverflowError.
Proof.
  destruct x as [m ex|]; cbn; [|congruence]. by destruct (0 <=? ex).
Qed.

Lemma round_float_raises tok s e :
  comes_from tok s -> round_float tok = Raise e -> e = OverflowError.
Proof.
  intros (a & x & c & rest & _ & (n & d & Hp)%number_at_parses).
  unfold round_float, py_float. rewrite Hp. cbn. apply py_round_raises.
Qed.

Lemma field_value_raises key clean e :
  field_value (field_token key clean) = Raise e -> e = OverflowError.
Proof.
  destruct (field_token key clean) as [tok|] eqn:E; [|done].
  apply field_token_comes_from in E. cbn. unfold clamp_round.
  destruct (round_float tok) as [x|e'] eqn:Er; [done|].
  cbn. intros [= <-]. by eapply round_float_raises.
Qed.

Lemma score_set_raises text e :
  score_set text = Raise e -> e = OverflowError.
Proof.
  unfold score_set. cbv zeta. set (clean := replace "**" "" text).
  pose proof (field_value_raises "reach" clean) as Hr.
  pose proof (field_value_raises "engagement" clean) as He.
  pose proof (field_value_raises "virality" clean) as Hv.
  pose proof (field_value_raises "weighted_total" clean) as Hw.
  change (field_token "reach" clean)
    with (labelled_number "Reach" "Score" clean) in Hr.
  change (field_token "engagement" clean)
    with (labelled_number "Engagement" "Score" clean) in He.
  change (field_token "virality" clean)
    with (labelled_number "Virality" "Score" clean) in Hv.
  change (field_token "weighted_total" clean)
    with (leftmost wt_line_at clean ≫= weighted_token) in Hw.
  destruct (field_value (labelled_number "Reach" _ _)) as [r|e1];
    [|cbn; intros [= <-]; by apply Hr].
  destruct (field_value (labelled_number "Engagement" _ _)) as [e2|e2];
    [|cbn; intros [= <-]; by apply He].
  destruct (field_value (labelled_number "Virality" _ _)) as [v|e3];
    [|cbn; intros [= <-]; by apply Hv].
  destruct (field_value (_ ≫= weighted_token)) as [w|e4];
    [done|cbn; intros [= <-]; by apply Hw].
Qed.

(** X10: the only way a call fails is the overflow of a number too large
    for a float.  On a text that, stripped of its bold markers, has no run
    of more than 308 digits the call returns; and a call that raises,
    raises OverflowError, never the ValueError of a malformed number, and
    does so on a text with a run of more than 308 digits. *)
Theorem extract_scores_failure :
  forall text : str,
    ((longest_digit_run (replace "**" "" text) <= 308)%nat ->
     exists d, scores_of text = Ok d)
    /\ (forall e, scores_of text = Raise e ->
          e = OverflowError
          /\ (308 < longest_digit_run (replace "**" "" text))%nat).
Proof.
  intros text. split; [apply extract_scores_returns|].
  intros e He. split.
  - rewrite scores_of_score_set in He. by eapply score_set_raises.
  - destruct (le_lt_dec (longest_digit_run (replace "**" "" text)) 308)
      as [Hle|Hlt]; [|done].
    destruct (extract_scores_returns text Hle) as [d Hd]. congruence.
Qed.

Lemma extract_scores_failure_witness :
  exists d, scores_of "Weighted Total: 12.5 + 30 = 42.5/100" = Ok d.
Proof.
  apply (proj1 (extract_scores_failure "Weighted Total: 12.5 + 30 = 42.5/100")).
  vm_compute. lia.
Defined.

(** * The sign of a number *)

Lemma div_rne_nonneg a b : 0 <= a -> 0 < b -> 0 <= div_rne a b.
Proof.
  intros Ha Hb. unfold div_rne.
  assert (0 <= a / b) by (apply Z.div_pos; lia).
  destruct (2 * (a mod b) ?= b); [|lia|lia]. destruct (Z.even (a / b)); lia.
Qed.

Lemma scale2_pos n d e :
  0 <= n -> 0 < d -> 0 <= (scale2 n d e).1 /\ 0 < (scale2 n d e).2.
Proof.
  intros Hn Hd. unfold scale2. destruct (Z.leb_spec 0 e); cbn [fst snd].
  - assert (0 < 2 ^ e) by (apply Z.pow_pos_nonneg; lia). split; nia.
  - assert (0 < 2 ^ (- e)) by (apply Z.pow_pos_nonneg; lia). split; nia.
Qed.

Lemma binary64_nonneg n d m e :
  0 <= n -> 0 < d -> binary64 n d = Finite m e -> 0 <= m.
Proof.
  intros Hn Hd. unfold binary64. destruct (n =? 0); [by intros [= <- <-]|].
  pose proof (scale2_pos n d (Z.max (-1074) (binade n d)) Hn Hd) as [Ha Hb].
  destruct (scale2 n d _) as [a b]; cbn [fst snd] in *.
  destruct (_ || _); [done|]. intros [= <- <-]. by apply div_rne_nonneg.
Qed.

Lemma round_float_nonneg tok x : round_float tok = Ok x -> 0 <= x.
Proof.
  unfold round_float, py_float.
  destruct (parse_decimal tok) as [[n d]|] eqn:Hp; [|done].
  apply parse_decimal_pos in Hp as [Hn Hd]. cbn.
  destruct (binary64 n d) as [m e|] eqn:Hb; [|done].
  apply binary64_nonneg in Hb; [|done..]. cbn.
  destruct (Z.leb_spec 0 e); intros [= <-].
  - assert (0 < 2 ^ e) by (apply Z.pow_pos_nonneg; lia). nia.
  - apply div_rne_nonneg; [done|]. apply Z.pow_pos_nonneg; lia.
Qed.

(** X11: a minus sign is never read as part of a number, so no field is
    ever read from a negative value and the lower clamp max(0, ...) never
    changes anything: a field with a number is the rounded number or 100,
    whichever is less.  So "Reach Score: -5" gives reach 5, not 0. *)
Theorem extract_scores_sign :
  (forall (text : str) (d : gmap str Z) (key : str),
     scores_of text = Ok d -> key ∈ field_keys ->
     match field_token key (replace "**" "" text) with
     | Some tok =>
         exists x, round_float tok = Ok x /\ 0 <= x
                   /\ d !! key = Some (Z.min 100 x)
     | None => d !! key = Some 50
     end)
  /\ reads "Reach Score: -5" "reach" 5
  /\ reads "Weighted Total: -12/100" "weighted_total" 12.
Proof.
  split; [|split; run_extractor].
  intros text d key Hd Hkey.
  pose proof (scores_of_token _ _ _ Hd Hkey) as H.
  destruct (field_token key _) as [tok|]; [|done].
  destruct H as (x & Hx & Hk). exists x. split; [done|].
  apply round_float_nonneg in Hx as Hx0. split; [done|].
  rewrite Hk. f_equal. lia.
Qed.

Lemma extract_scores_sign_witness :
  exists d : gmap str Z,
    scores_of "Engagement Score: -250" = Ok d
    /\ exists x, round_float "250" = Ok x /\ 0 <= x
                 /\ d !! "engagement" = Some (Z.min 100 x).
Proof.
  assert (H : reads "Engagement Score: -250" "engagement" 100)
    by run_extractor.
  destruct H as (d & Hd & _). exists d. split; [exact Hd|].
  exact (proj1 extract_scores_sign "Engagement Score: -250" d "engagement" Hd
           ltac:(unfold field_keys; set_solver)).
Defined.

(** * Texts without numbers *)

Lemma replace_from_forallb (p : ascii -> bool) old k s :
  forallb p s = true -> forallb p (replace_from old [] k s) = true.
Proof.
  revert k. induction s as [|c s IH]; intros k; simpl.
  - by destruct old, k.
  - intros [Hc Hs]%andb_prop. destruct k as [|k]; [|by apply IH].
    destruct (startswith old (c :: s)).
    + destruct old as [|o old]; simpl; [|by apply IH].
      rewrite Hc. by apply IH.
    + simpl. rewrite Hc. by apply IH.
Qed.

Lemma labelled_number_nondigit w1 w2 s :
  forallb nondigit s = true -> labelled_number w1 w2 s = None.
Proof.
  intros H. unfold labelled_number, first_label.
  destruct (leftmost (label_at w1 w2) s) as [r|] eqn:E; [|done].
  cbn [mbind option_bind].
  apply leftmost_Some in E as (s' & Hs & Hr%label_at_suffix).
  apply first_number_None. eapply nondigit_suffix; [|exact H]. by etrans.
Qed.

Lemma weighted_nondigit s :
  forallb nondigit s = true -> leftmost wt_line_at s ≫= weighted_token = None.
Proof.
  intros H. destruct (leftmost wt_line_at s) as [L|] eqn:E; [|done].
  cbn [mbind option_bind].
  apply leftmost_Some in E as (s' & Hs & [c ->]%wt_line_at_sub).
  apply weighted_token_None.
  pose proof (nondigit_suffix _ _ Hs H) as H'.
  rewrite forallb_app' in H'. by apply andb_prop in H' as [? _].
Qed.

Lemma score_set_nondigit text :
  forallb nondigit text = true -> score_set text = Ok default_scores.
Proof.
  intros H. unfold score_set. cbv zeta.
  pose proof (replace_from_forallb nondigit "**" 0 text H) as Hc.
  fold (replace "**" "" text) in Hc.
  rewrite !labelled_number_nondigit, weighted_nondigit by done.
  reflexivity.
Qed.

(** X12: a text without any digit yields the defaults, 50 in all four
    fields, and the final scorecard then shows 50/100 with the rating
    Decent in every row and the verdict "Mid at best".  The stand-in
    reply "No response generated." is such a text, so an evaluator that
    did not answer is scored 50 throughout. *)
Theorem no_digits_default_scorecard :
  forall text : str,
    forallb nondigit text = true ->
    scores_of text = Ok default_scores
    /\ (forall (su : setup) (n : Z),
          exists card, shown (scorecard_of su default_scores n) = Some card
            /\ table card
               = [ ("Reach", "50/100", "[yellow]Decent[/yellow]");
                   ("Engagement", "50/100", "[yellow]Decent[/yellow]");
                   ("Virality", "50/100", "[yellow]Decent[/yellow]");
                   ("", "", "");
                   ("[bold]Weighted Total[/bold]", "[bold]50/100[/bold]",
                    "[yellow]Decent[/yellow]") ]
            /\ verdict card
               = "[red]Mid at best. The algorithm will bury this after the first batch.[/red]")
    /\ forallb nondigit NO_RESPONSE = true.
Proof.
  intros text H. split; [|split; [|reflexivity]].
  - rewrite scores_of_score_set. by apply score_set_nondigit.
  - intros su n. eexists. split; [reflexivity|]. split; reflexivity.
Qed.

Lemma no_digits_default_scorecard_witness :
  scores_of NO_RESPONSE = Ok default_scores.
Proof.
  apply (proj1 (no_digits_default_scorecard NO_RESPONSE ltac:(reflexivity))).
Defined.

(** * Bold markers *)

Lemma replace_skip s : replace_from "**" "" 1 s = replace "**" "" (drop 1 s).
Proof. by destruct s. Qed.

Lemma replace_star_star s : replace "**" "" ("*"%char :: "*"%char :: s) = replace "**" "" s.
Proof. reflexivity. Qed.

Lemma replace_cons c s :
  startswith "**" (c :: s) = false ->
  replace "**" "" (c :: s) = c :: replace "**" "" s.
Proof. unfold replace. simpl. by intros ->. Qed.

Lemma startswith_star_star s :
  startswith "**" s = true -> exists r, s = "*"%char :: "*"%char :: r.
Proof.
  destruct s as [|a [|b r]]; simpl; try done.
  - by rewrite andb_false_r.
  - rewrite andb_true_r. intros [Ha Hb]%andb_prop.
    apply ascii_eqb_eq in Ha, Hb. subst. by exists r.
Qed.

(** What is left after the markers are removed holds no marker, and
    starts with an asterisk only if the text did. *)
Lemma replace_clean n s :
  (length s <= n)%nat ->
  contains "**" (replace "**" "" s) = false
  /\ (startswith "*" (replace "**" "" s) = true -> startswith "*" s = true).
Proof.
  revert s. induction n as [|n IH]; intros s Hn.
  { destruct s; [done|simpl in Hn; lia]. }
  destruct s as [|c s]; [done|].
  destruct (startswith "**" (c :: s)) eqn:E.
  - apply startswith_star_star in E as [r [= -> ->]].
    rewrite replace_star_star.
    destruct (IH r ltac:(simpl in Hn; lia)) as [H1 H2]. split; [done|].
    intros _. reflexivity.
  - rewrite replace_cons by done.
    destruct (IH s ltac:(simpl in Hn; lia)) as [H1 H2]. split.
    + cbn [contains]. rewrite H1, orb_false_r.
      destruct (startswith "**" (c :: replace "**" "" s)) eqn:E2; [|done].
      apply startswith_star_star in E2 as [r [= -> Hr]].
      assert (startswith "*" s = true) as Hs by (apply H2; by rewrite Hr).
      destruct s as [|x s]; [done|]. simpl in Hs.
      rewrite andb_true_r in Hs. apply ascii_eqb_eq in Hs as <-. done.
    + simpl. by rewrite !andb_true_r.
Qed.

Lemma replace_none s : contains "**" s = false -> replace "**" "" s = s.
Proof.
  induction s as [|c s IH]; [done|].
  cbn [contains]. intros [H1 H2]%orb_false_elim.
  rewrite replace_cons by done. by rewrite IH.
Qed.

Lemma replace_idempotent s :
  replace "**" "" (replace "**" "" s) = replace "**" "" s.
Proof. apply replace_none. by apply (replace_clean (length s)). Qed.

(** X13: the bold markers make no difference to the scores: the text
    stripped of its markers holds no marker any more, and a call on it
    has the outcome of the call on the text itself. *)
Theorem extract_scores_bold_markers :
  forall text : str,
    contains "**" (replace "**" "" text) = false
    /\ scores_of (replace "**" "" text) = scores_of text.
Proof.
  intros text. split; [by apply (replace_clean (length text))|].
  rewrite !scores_of_score_set. unfold score_set. cbv zeta.
  by rewrite replace_idempotent.
Qed.

(** * Whole numbers *)

Lemma number_at_digits ds post :
  forallb is_digit ds = true -> ds <> [] -> ends_number post = true ->
  number_at (ds ++ post) = Some (ds, post).
Proof.
  intros Hds Hne Hpost. unfold number_at.
  rewrite (span_app_all _ _ _ Hds).
  assert (span is_digit post = ([], post)) as ->.
  { destruct post as [|c r]; [done|]. simpl in Hpost.
    apply andb_prop in Hpost as [Hc _].
    apply span_cons_false. by destruct (is_digit c). }
  cbn [fst snd]. rewrite app_nil_r.
  destruct ds as [|x ds]; [done|].
  destruct post as [|c r]; [done|].
  simpl in Hpost. apply andb_prop in Hpost as [_ Hdot].
  destruct (ascii_eqb "." c); [|done]. simpl in Hdot.
  destruct r as [|y r]; [done|].
  rewrite span_cons_false by (by destruct (is_digit y)). done.
Qed.

Lemma leftmost_here {A} (f : str -> option A) s a :
  f s = Some a -> leftmost f s = Some a.
Proof. intros H. destruct s; simpl; by rewrite H. Qed.

Lemma leftmost_skip {A} (f : str -> option A) pre s :
  (forall c r, f (c :: r) = None \/ is_digit c = true) ->
  forallb nondigit pre = true ->
  leftmost f (pre ++ s) = leftmost f s.
Proof.
  intros Hf. induction pre as [|c pre IH]; [done|].
  simpl. intros [Hc Hpre]%andb_prop.
  destruct (Hf c (pre ++ s)) as [->|Hd]; [by apply IH|].
  unfold nondigit in Hc. by rewrite Hd in Hc.
Qed.

Lemma div_rne_one a : div_rne a 1 = a.
Proof. unfold div_rne. by rewrite Z.div_1_r, Z.mod_1_r. Qed.

(** A whole number below [2^52] is a float, and [round] gives it back. *)
Lemma round_float_integer ds :
  forallb is_digit ds = true -> ds <> [] -> digits_value 0 ds < 2 ^ 52 ->
  round_float ds = Ok (digits_value 0 ds).
Proof.
  intros Hds Hne Hlt. unfold round_float, py_float, parse_decimal.
  rewrite (span_all _ _ Hds). destruct ds as [|x ds']; [done|].
  set (n := digits_value 0 (x :: ds')) in *.
  assert (Hn : 0 <= n) by (by apply digits_value_nonneg).
  cbn [mbind Result_bind]. unfold binary64.
  destruct (Z.eqb_spec n 0) as [->|Hn0]; [reflexivity|].
  pose proof (binade_below n 1 ltac:(lia) ltac:(lia) ltac:(lia)) as Hb.
  set (e := Z.max (-1074) (binade n 1)).
  assert (He : -1074 <= e <= -1) by lia. clearbody e.
  unfold scale2. destruct (Z.leb_spec 0 e); [lia|].
  set (p := 2 ^ (- e)).
  assert (Hp : 0 < p) by (apply Z.pow_pos_nonneg; lia).
  rewrite !div_rne_one.
  destruct (Z.ltb_spec 971 e); [lia|].
  destruct (Z.eqb_spec e 971); [lia|]. cbn [orb andb].
  unfold py_round. destruct (Z.leb_spec 0 e); [lia|].
  fold p. by rewrite div_rne_exact.
Qed.

Lemma digits_no_LF ds :
  forallb is_digit ds = true ->
  forallb (fun c => negb (ascii_eqb c LF)) ds = true.
Proof.
  induction ds as [|c ds IH]; [done|]. simpl.
  intros [Hc Hds]%andb_prop. rewrite (IH Hds), andb_true_r.
  destruct (ascii_eqb c LF) eqn:E; [|done].
  apply ascii_eqb_eq in E. by subst c.
Qed.

Lemma slash100_digits ds rest :
  forallb is_digit ds = true -> ds <> [] ->
  slash100_at (ds ++ "/100" ++ rest) = Some ds.
Proof.
  intros Hds Hne. unfold slash100_at.
  change (ds ++ "/100" ++ rest) with (ds ++ "/"%char :: "100" ++ rest).
  rewrite number_at_digits by done. reflexivity.
Qed.

Lemma slash100_at_digit c r : slash100_at (c :: r) = None \/ is_digit c = true.
Proof.
  destruct (is_digit c) eqn:E; [by right|left].
  unfold slash100_at. by rewrite number_at_nondigit.
Qed.

Lemma wt_line_digits ds rest :
  forallb is_digit ds = true -> ds <> [] ->
  wt_line_at ("Weighted Total: " ++ ds ++ "/100" ++ rest)
  = Some ("Weighted Total: " ++ ds ++ "/100" ++ line_of rest).
Proof.
  intros Hds Hne. unfold wt_line_at.
  change (label_at "Weighted" "Total" ("Weighted Total: " ++ ?x))
    with (Some (": " ++ x)).
  cbn [mbind option_bind].
  assert (line_of (": " ++ ds ++ "/100" ++ rest)
          = ": " ++ ds ++ "/100" ++ line_of rest) as ->.
  { unfold line_of.
    change (": " ++ ds ++ "/100" ++ rest)
      with (":"%char :: " "%char :: ds ++ "/100" ++ rest).
    rewrite !span_cons_true by done. cbn [fst].
    rewrite (span_app_all _ _ _ (digits_no_LF _ Hds)). cbn [fst].
    change ("/100" ++ rest)
      with ("/"%char :: "1"%char :: "0"%char :: "0"%char :: rest).
    rewrite !span_cons_true by done. reflexivity. }
  change ("Weighted Total: " ++ ?x) with ("Weighted Total" ++ ": " ++ x).
  by rewrite take_prefix.
Qed.

(** X14: a whole number written after a label is read back as it
    stands.  When the first occurrence of a reach, engagement or virality
    label in the normalized text is followed by ": " and a run of digits
    that ends there, the field is the value of the digits, or 100 if that
    is less; so is the weighted total when its first label is followed by
    ": " and digits with "/100" behind them.  (The value is taken below
    2^52, where every whole number is a float.) *)
Theorem whole_scores_read_back :
  forall (text : str) (d : gmap str Z) (pre ds : str),
    scores_of text = Ok d ->
    forallb is_digit ds = true -> ds <> [] -> digits_value 0 ds < 2 ^ 52 ->
    let clean := replace "**" "" text in
    (forall (key label post : str),
       (key, label) ∈ simple_fields ->
       clean = pre ++ label ++ " Score: " ++ ds ++ post ->
       ends_number post = true ->
       (forall i, (i < length pre)%nat ->
          label_at label "Score" (drop i clean) = None) ->
       d !! key = Some (Z.min 100 (digits_value 0 ds)))
    /\ (forall rest : str,
          clean = pre ++ "Weighted Total: " ++ ds ++ "/100" ++ rest ->
          (forall i, (i < length pre)%nat ->
             label_at "Weighted" "Total" (drop i clean) = None) ->
          d !! "weighted_total" = Some (Z.min 100 (digits_value 0 ds))).
Proof.
  intros text d pre ds Hd Hds Hne Hlt clean.
  assert (Hval : forall key : str, key ∈ field_keys ->
            field_token key clean = Some ds ->
            d !! key = Some (Z.min 100 (digits_value 0 ds))).
  { intros key Hkey Htok.
    pose proof (scores_of_token _ _ _ Hd Hkey) as H.
    fold clean in H. rewrite Htok in H. destruct H as (x & Hx & ->).
    rewrite round_float_integer in Hx by done. injection Hx as <-.
    f_equal. pose proof (digits_value_nonneg 0 ds ltac:(lia) Hds). lia. }
  assert (Hnum : forall post, ends_number post = true ->
            first_number (": " ++ ds ++ post) = Some ds).
  { intros post Hpost. unfold first_number.
    change (": " ++ ds ++ post) with (":"%char :: " "%char :: ds ++ post).
    cbn [leftmost]. rewrite !number_at_nondigit by done.
    cbn [fmap option_fmap option_map].
    apply leftmost_here. by rewrite number_at_digits. }
  split.
  - intros key label post Hin Hclean Hpost Hpre.
    unfold simple_fields in Hin. rewrite !elem_of_cons, elem_of_nil in Hin.
    destruct Hin as [[= -> ->]|[[= -> ->]|[[= -> ->]|[]]]];
      (apply Hval; [unfold field_keys; set_solver|]);
      rewrite Hclean in Hpre |- *.
    + change (field_token "reach" ?c) with (labelled_number "Reach" "Score" c).
      unfold labelled_number, first_label. rewrite leftmost_drop by done.
      change (leftmost _ ("Reach" ++ " Score: " ++ ds ++ post))
        with (Some (": " ++ ds ++ post)).
      cbn [mbind option_bind]. by apply Hnum.
    + change (field_token "engagement" ?c)
        with (labelled_number "Engagement" "Score" c).
      unfold labelled_number, first_label. rewrite leftmost_drop by done.
      change (leftmost _ ("Engagement" ++ " Score: " ++ ds ++ post))
        with (Some (": " ++ ds ++ post)).
      cbn [mbind option_bind]. by apply Hnum.
    + change (field_token "virality" ?c)
        with (labelled_number "Virality" "Score" c).
      unfold labelled_number, first_label. rewrite leftmost_drop by done.
      change (leftmost _ ("Virality" ++ " Score: " ++ ds ++ post))
        with (Some (": " ++ ds ++ post)).
      cbn [mbind option_bind]. by apply Hnum.
  - intros rest Hclean Hpre. apply Hval; [unfold field_keys; set_solver|].
    change (field_token "weighted_total" clean)
      with (leftmost wt_line_at clean ≫= weighted_token).
    rewrite Hclean in Hpre |- *.
    rewrite leftmost_drop.
    2:{ intros i Hi. unfold wt_line_at. by rewrite (Hpre i Hi). }
    rewrite (leftmost_here _ _ _ (wt_line_digits ds rest Hds Hne)).
    cbn [mbind option_bind]. unfold weighted_token.
    assert (leftmost slash100_at
              ("Weighted Total: " ++ ds ++ "/100" ++ line_of rest)
            = Some ds) as ->; [|done].
    rewrite (leftmost_skip slash100_at "Weighted Total: ");
      [|apply slash100_at_digit|reflexivity].
    apply leftmost_here. by apply slash100_digits.
Qed.

Lemma whole_scores_read_back_witness :
  exists d : gmap str Z,
    scores_of "**Reach Score:** 72 (solid)" = Ok d
    /\ d !! "reach" = Some (Z.min 100 (digits_value 0 "72")).
Proof.
  assert (H : reads "**Reach Score:** 72 (solid)" "reach" 72) by run_extractor.
  destruct H as (d & Hd & _). exists d. split; [exact Hd|].
  refine (proj1 (whole_scores_read_back "**Reach Score:** 72 (solid)" d
                   "" "72" Hd _ _ _) "reach" "Reach" " (solid)" _ _ _ _).
  - reflexivity.
  - discriminate.
  - vm_compute. reflexivity.
  - unfold simple_fields. set_solver.
  - vm_compute. reflexivity.
  - reflexivity.
  - intros i Hi. simpl in Hi. lia.
Defined.

(** * One round of the session *)

Lemma on_store_extract_raise text w e :
  scores_of text = Raise e -> on_store (extract_scores text) w = Raise e.
Proof.
  rewrite scores_of_score_set. intros H. unfold on_store.
  by rewrite extract_scores_run, H.
Qed.

Lemma get_agent_response_if env a (b : bool) m1 m2 w :
  (if b then get_agent_response env a m1 else get_agent_response env a m2) w
  = get_agent_response env a (if b then m1 else m2) w.
Proof. by destruct b. Qed.

Lemma get_agent_response_ok env a m w r w' :
  get_agent_response env a m w = Ok (r, w') ->
  respond env (chats (log w)) a m = Ok r
  /\ w' = {| store := store w; log := log w ++ [Chat a m r] |}.
Proof.
  unfold get_agent_response, chats.
  destruct (respond env _ a m) as [r'|]; [|done]. by intros [= <- <-].
Qed.

(** X15: in every round that completes, the Creator is sent the opening
    prompt in round 1 and otherwise the revision request, which quotes the
    replies of the Evaluator and of the Reactor from the round before;
    the Evaluator and the Reactor are both sent the Creator's reply of
    this round; the scores of the round are extracted from this round's
    reply of the Evaluator and stored in a new dict, the earlier dicts
    staying as they were; and the player is asked at most once. *)
Theorem round_body_feedback :
  forall (env : Env) (su : setup) (hint : str) (st st' : locals)
         (broke : bool) (w w' : world),
    round_body env su hint st w = Ok ((st', broke), w') ->
    let request :=
      if iteration st + 1 =? 1 then creator_prompt su hint
      else revision_prompt su
             {| iteration := iteration st + 1;
                creator_response := creator_response st;
                algorithm_response := algorithm_response st;
                audience_response := audience_response st;
                scores := scores st |} in
    iteration st' = iteration st + 1
    /\ exists (d : gmap str Z) (asked : list event),
         log w' = log w
                  ++ [ Chat Creator request (creator_response st');
                       Chat Algorithm (algorithm_prompt su st')
                         (algorithm_response st');
                       Chat Audience (audience_prompt su st')
                         (audience_response st') ]
                  ++ asked
         /\ (asked = [] \/ exists choice, asked = [Asked choice])
         /\ scores_of (algorithm_response st') = Ok d
         /\ store w' = store w ++ [d]
         /\ scores st' = length (store w).
Proof.
  intros env su hint st st' broke w w' H request.
  unfold round_body in H. rewrite bind_run, get_agent_response_if in H.
  fold request in H.
  destruct (get_agent_response env Creator request w) as [[c w1]|] eqn:E1;
    [|done].
  apply get_agent_response_ok in E1 as [_ ->].
  rewrite bind_run in H.
  match type of H with context [get_agent_response env Algorithm ?m ?w0] =>
    destruct (get_agent_response env Algorithm m w0) as [[a w2]|] eqn:E2;
      [|done] end.
  apply get_agent_response_ok in E2 as [_ ->].
  rewrite bind_run in H.
  match type of H with context [get_agent_response env Audience ?m ?w0] =>
    destruct (get_agent_response env Audience m w0) as [[u w3]|] eqn:E3;
      [|done] end.
  apply get_agent_response_ok in E3 as [_ ->].
  rewrite bind_run in H.
  destruct (scores_of a) as [d|e] eqn:Ed.
  2:{ by rewrite (on_store_extract_raise _ _ _ Ed) in H. }
  rewrite (on_store_extract _ _ _ Ed) in H. cbn [store log] in H.
  destruct (iteration st + 1 <? MAX_ITERATIONS).
  - rewrite bind_run in H. unfold Prompt_ask in H. cbn [store log] in H.
    destruct (str_eqb _ "2") in H; injection H as <- <- <-;
      (split; [done|]); eexists d, [Asked _]; cbn [log store iteration
        creator_response algorithm_response audience_response scores];
      (split; [by rewrite <- !app_assoc|]);
      (split; [right; by eexists|done]).
  - injection H as <- <- <-. split; [done|]. exists d, [].
    cbn [log store iteration creator_response algorithm_response
           audience_response scores].
    split; [by rewrite <- !app_assoc|]. split; [by left|done].
Qed.

Lemma round_body_feedback_witness :
  exists (st' : locals) (w' : world),
    round_body scripted_env scripted_setup "vertical video"
      {| iteration := 0; creator_response := ""; algorithm_response := "";
         audience_response := ""; scores := 0%nat |}
      {| store := [∅]; log := [] |} = Ok ((st', true), w')
    /\ iteration st' = 0 + 1.
Proof.
  assert (Hresp : forall n a m, exists r, respond scripted_env n a m = Ok r).
  { intros n a m. eexists. reflexivity. }
  assert (Hextr : forall n m r, respond scripted_env n Algorithm m = Ok r ->
                                exists d, scores_of r = Ok d).
  { intros n m r [= <-].
    assert (H : reads
      ("Reach Score: 72" ++ nl ++ "Engagement Score: 64.5" ++ nl
       ++ "Virality Score: 58" ++ nl
       ++ "**Weighted Total:** 21.6 + 16 + 11.6 + 9 + 6 = **64.2/100**")
      "weighted_total" 64) by run_extractor.
    destruct H as (d & Hd & _). by exists d. }
  destruct (round_body_run scripted_env scripted_setup "vertical video"
              Hresp Hextr
              {| iteration := 0; creator_response := "";
                 algorithm_response := ""; audience_response := "";
                 scores := 0%nat |}
              {| store := [∅]; log := [] |})
    as (c & a & u & d & l & _ & _ & Hrun).
  cbv zeta in Hrun. cbn [iteration] in Hrun.
  change (0 + 1 <? MAX_ITERATIONS) with true in Hrun. cbv iota in Hrun.
  change (str_eqb (answer scripted_env _) "2") with true in Hrun.
  eexists _, _. split; [exact Hrun|].
  exact (proj1 (round_body_feedback _ _ _ _ _ _ _ _ Hrun)).
Defined.

(** * A session that cannot be scored *)












(** * Letter case *)

Lemma lower_is_digit c : is_digit (lower_char c) = is_digit c.
Proof. each_char c; vm_compute; reflexivity. Qed.

Lemma lower_is_space c : is_space (lower_char c) = is_space c.
Proof. each_char c; vm_compute; reflexivity. Qed.

Lemma lower_not_LF c : ascii_eqb (lower_char c) LF = ascii_eqb c LF.
Proof. each_char c; vm_compute; reflexivity. Qed.

Lemma lower_star c : ascii_eqb "*"%char (lower_char c) = ascii_eqb "*"%char c.
Proof. each_char c; vm_compute; reflexivity. Qed.

Lemma lower_dot c : ascii_eqb "."%char (lower_char c) = ascii_eqb "."%char c.
Proof. each_char c; vm_compute; reflexivity. Qed.

Lemma lower_slash c : ascii_eqb "/"%char (lower_char c) = ascii_eqb "/"%char c.
Proof. each_char c; vm_compute; reflexivity. Qed.

Lemma lower_eq_sign c : ascii_eqb (lower_char c) "="%char = ascii_eqb c "="%char.
Proof. each_char c; vm_compute; reflexivity. Qed.

Lemma lower_one c : ascii_eqb "1"%char (lower_char c) = ascii_eqb "1"%char c.
Proof. each_char c; vm_compute; reflexivity. Qed.

Lemma lower_zero c : ascii_eqb "0"%char (lower_char c) = ascii_eqb "0"%char c.
Proof. each_char c; vm_compute; reflexivity. Qed.

Lemma lower_lower c : lower_char (lower_char c) = lower_char c.
Proof. each_char c; vm_compute; reflexivity. Qed.

Lemma chr_match_lower a c :
  chr_match IGNORECASE a (lower_char c) = chr_match IGNORECASE a c.
Proof. unfold chr_match. by rewrite lower_lower. Qed.

Lemma lower_cons c s : lower (c :: s) = lower_char c :: lower s.
Proof. reflexivity. Qed.

Lemma lower_app a b : lower (a ++ b) = lower a ++ lower b.
Proof. unfold lower. apply map_app. Qed.

Lemma lower_length s : length (lower s) = length s.
Proof. unfold lower. apply length_map. Qed.

Lemma lower_take n s : take n (lower s) = lower (take n s).
Proof.
  revert n. induction s as [|c s IH]; intros [|n]; try done.
  simpl. by rewrite <- IH.
Qed.

Lemma lower_digits s : forallb is_digit s = true -> lower s = s.
Proof.
  induction s as [|c s IH]; [done|]. simpl.
  intros [Hc Hs]%andb_prop. by rewrite (digit_lower _ Hc), IH.
Qed.

Lemma span_lower p s :
  (forall c, p (lower_char c) = p c) ->
  span p (lower s) = (lower (span p s).1, lower (span p s).2).
Proof.
  intros Hp. induction s as [|c s IH]; [done|].
  rewrite lower_cons. simpl. rewrite Hp. destruct (p c); [|done].
  rewrite IH. by destruct (span p s).
Qed.

Lemma word_at_lower w s :
  word_at IGNORECASE w (lower s) = lower <$> word_at IGNORECASE w s.
Proof.
  revert s. induction w as [|a w IH]; intros s; [done|].
  destruct s as [|c s]; [done|]. rewrite lower_cons. cbn [word_at].
  rewrite chr_match_lower. by destruct (chr_match IGNORECASE a c).
Qed.

Lemma skip_spaces_lower s : skip_spaces (lower s) = lower (skip_spaces s).
Proof. unfold skip_spaces. by rewrite (span_lower _ _ lower_is_space). Qed.

Lemma label_at_lower w1 w2 s :
  label_at w1 w2 (lower s) = lower <$> label_at w1 w2 s.
Proof.
  unfold label_at. rewrite word_at_lower.
  destruct (word_at IGNORECASE w1 s) as [r|]; [|done].
  cbn [fmap option_fmap option_map mbind option_bind].
  by rewrite skip_spaces_lower, word_at_lower.
Qed.

Lemma number_at_lower s :
  number_at (lower s)
  = (fun x => (x.1, lower x.2)) <$> number_at s.
Proof.
  unfold number_at. rewrite (span_lower _ _ lower_is_digit).
  pose proof (span_fst_all is_digit s) as Hip.
  destruct (span is_digit s) as [ip rest]; cbn [fst snd] in *.
  rewrite (lower_digits _ Hip). destruct ip as [|x ip]; [done|].
  destruct rest as [|c r]; [done|]. rewrite lower_cons, lower_dot.
  destruct (ascii_eqb "." c) eqn:Ec; [|done].
  apply ascii_eqb_eq in Ec as <-.
  rewrite (span_lower _ _ lower_is_digit).
  pose proof (span_fst_all is_digit r) as Hfp.
  destruct (span is_digit r) as [fp r']; cbn [fst snd] in *.
  rewrite (lower_digits _ Hfp). by destruct fp.
Qed.

Lemma leftmost_lower {A} (f : str -> option A) s :
  (forall s, f (lower s) = f s) -> leftmost f (lower s) = leftmost f s.
Proof.
  intros Hf. induction s as [|c s IH].
  - reflexivity.
  - rewrite lower_cons. simpl. rewrite <- lower_cons, Hf.
    destruct (f (c :: s)); [done|]. exact IH.
Qed.

Lemma leftmost_lower_fmap (f : str -> option str) s :
  (forall s, f (lower s) = lower <$> f s) ->
  leftmost f (lower s) = lower <$> leftmost f s.
Proof.
  intros Hf. induction s as [|c s IH].
  - pose proof (Hf []) as H0. change (lower []) with (@nil ascii) in *.
    cbn [leftmost]. by destruct (f []).
  - rewrite lower_cons. simpl. rewrite <- lower_cons, Hf.
    destruct (f (c :: s)); [done|]. exact IH.
Qed.

Lemma number_tok_lower s : fst <$> number_at (lower s) = fst <$> number_at s.
Proof. rewrite number_at_lower. by destruct (number_at s) as [[? ?]|]. Qed.

Lemma first_number_lower s : first_number (lower s) = first_number s.
Proof. unfold first_number. apply leftmost_lower, number_tok_lower. Qed.

Lemma numbers_fuel_lower n s : numbers_fuel n (lower s) = numbers_fuel n s.
Proof.
  revert s. induction n as [|n IH]; intros s; [done|]. cbn [numbers_fuel].
  rewrite number_at_lower. destruct (number_at s) as [[tok rest]|];
    cbn [fmap option_fmap option_map fst snd].
  - by rewrite IH.
  - destruct s as [|c s]; [done|]. rewrite lower_cons. apply IH.
Qed.

Lemma numbers_lower s : numbers (lower s) = numbers s.
Proof. unfold numbers. by rewrite lower_length, numbers_fuel_lower. Qed.

Lemma labelled_number_lower w1 w2 s :
  labelled_number w1 w2 (lower s) = labelled_number w1 w2 s.
Proof.
  unfold labelled_number, first_label.
  rewrite (leftmost_lower_fmap _ _ (label_at_lower w1 w2)).
  destruct (leftmost (label_at w1 w2) s) as [r|]; [|done].
  cbn [fmap option_fmap option_map mbind option_bind].
  apply first_number_lower.
Qed.

Lemma line_of_lower s : line_of (lower s) = lower (line_of s).
Proof.
  unfold line_of. rewrite span_lower; [done|].
  intros c. by rewrite lower_not_LF.
Qed.

Lemma wt_line_at_lower s : wt_line_at (lower s) = lower <$> wt_line_at s.
Proof.
  unfold wt_line_at. rewrite label_at_lower.
  destruct (label_at "Weighted" "Total" s) as [r|]; [|done].
  cbn [fmap option_fmap option_map mbind option_bind].
  rewrite line_of_lower. destruct (line_of r) as [|x l]; [done|].
  cbn [lower map]. fold (lower l). cbn [fmap option_fmap option_map].
  rewrite !lower_length, lower_take, lower_app. reflexivity.
Qed.

Lemma startswith_100_lower s : startswith "100" (lower s) = startswith "100" s.
Proof.
  destruct s as [|a [|b [|c s]]]; try done; rewrite !lower_cons;
    cbn [startswith]; rewrite ?lower_one, ?lower_zero; done.
Qed.

Lemma slash100_at_lower s : slash100_at (lower s) = slash100_at s.
Proof.
  unfold slash100_at. rewrite number_at_lower.
  destruct (number_at s) as [[tok rest]|]; [|done].
  cbn [fmap option_fmap option_map mbind option_bind fst snd].
  rewrite skip_spaces_lower. destruct (skip_spaces rest) as [|c r]; [done|].
  rewrite lower_cons, lower_slash, skip_spaces_lower, startswith_100_lower.
  done.
Qed.

Lemma after_last_lower s :
  after_last "="%char (lower s) = lower <$> after_last "="%char s.
Proof.
  induction s as [|x s IH]; [done|]. rewrite lower_cons. cbn [after_last].
  rewrite IH. destruct (after_last "=" s); [done|].
  cbn [fmap option_fmap option_map].
  rewrite lower_eq_sign. by destruct (ascii_eqb x "=").
Qed.

Lemma weighted_token_lower L : weighted_token (lower L) = weighted_token L.
Proof.
  unfold weighted_token.
  rewrite (leftmost_lower _ _ slash100_at_lower).
  destruct (leftmost slash100_at L); [done|].
  rewrite after_last_lower. destruct (after_last "=" L) as [r|].
  - cbn [fmap option_fmap option_map]. by rewrite numbers_lower.
  - apply first_number_lower.
Qed.

Lemma weighted_lower s :
  leftmost wt_line_at (lower s) ≫= weighted_token
  = leftmost wt_line_at s ≫= weighted_token.
Proof.
  rewrite (leftmost_lower_fmap _ _ wt_line_at_lower).
  destruct (leftmost wt_line_at s) as [L|]; [|done].
  cbn [fmap option_fmap option_map mbind option_bind].
  apply weighted_token_lower.
Qed.

Lemma startswith_stars_lower s :
  startswith "**" (lower s) = startswith "**" s.
Proof.
  destruct s as [|a [|b s]]; try done; rewrite !lower_cons;
    cbn [startswith]; rewrite ?lower_star; done.
Qed.

Lemma replace_from_lower k s :
  replace_from "**" "" k (lower s) = lower (replace_from "**" "" k s).
Proof.
  revert k. induction s as [|c s IH]; intros k; [by destruct k|].
  rewrite lower_cons. cbn [replace_from]. destruct k as [|k]; [|apply IH].
  rewrite <- lower_cons, startswith_stars_lower.
  destruct (startswith "**" (c :: s)).
  - cbn [length app]. apply IH.
  - rewrite lower_cons. by rewrite IH.
Qed.

Lemma score_set_lower text : score_set (lower text) = score_set text.
Proof.
  unfold score_set. cbv zeta. unfold replace.
  rewrite replace_from_lower.
  by rewrite !labelled_number_lower, weighted_lower.
Qed.

(** X17: the letter case of the text makes no difference to the scores:
    a call on the lower-cased text has the outcome of the call on the
    text, so two texts that differ in letter case only have the same
    outcome. *)
Theorem extract_scores_letter_case :
  (forall text : str, scores_of (lower text) = scores_of text)
  /\ (forall a b : str, lower a = lower b -> scores_of a = scores_of b).
Proof.
  assert (H : forall text : str, scores_of (lower text) = scores_of text).
  { intros text. rewrite !scores_of_score_set. apply score_set_lower. }
  split; [exact H|].
  intros a b Hab. by rewrite <- (H a), <- (H b), Hab.
Qed.

Lemma extract_scores_letter_case_witness :
  scores_of "REACH SCORE: 72" = scores_of "Reach Score: 72".
Proof.
  apply (proj2 extract_scores_letter_case). vm_compute. reflexivity.
Defined.
